(** * FsMeshQC: per-triangle quality metrics of FreeSurfer surface meshes

    A shallow embedding of the Python package [FsMeshQC]
    ([utils/geometric_calculation.py], [utils/meshQuality.py],
    [utils/saveResults.py], [main.py]) and the properties of its
    specification.

    Numbers.  A NumPy [float64] is modelled by [float64] below: the three
    IEEE special values [NaN], [+inf], [-inf] and the finite values, which
    carry a real number.  Arithmetic on finite values is exact (no rounding,
    no overflow, one zero); arithmetic on the special values follows
    IEEE 754 as NumPy exposes it (warnings are not exceptions).  This is the
    program read over the real numbers: it settles which formula, branch,
    guard or sentinel applies to an entry, and which ranges the clips and
    guards enforce.  It does not settle what rounding and overflow do to a
    finite result.  For that, module [Binary64] repeats the edge and area
    kernel over IEEE binary64 numbers (primitive floats), where the program
    can be run and reasoned about from the IEEE specification of each
    operation; Part II records where the two readings part.

    Arrays.  A one-dimensional [ndarray] is a list; an (M,3) array is a list
    of triples.  Element-wise operators are [zipWith]; a scalar operand is
    broadcast with [map]. *)

From Stdlib Require Import Reals Lra Lia ZArith List Bool String Ascii.
From Stdlib Require Import Permutation Sorted.
From Stdlib Require PrimFloat Floats.
From Stdlib Require Import Permutation Sorted.
Import ListNotations.
Local Open Scope string_scope.
Local Open Scope list_scope.
Local Open Scope R_scope.

(* ================================================================== *)
(** * Part I.  Definitions                                             *)
(* ================================================================== *)

(** ** float64 scalars *)

Inductive float64 : Type :=
| NaN
| PInf
| NInf
| Fin (r : R).

Definition Rltb (x y : R) : bool := if Rlt_dec x y then true else false.
Definition Rleb (x y : R) : bool := if Rle_dec x y then true else false.
Definition Reqb (x y : R) : bool := if Req_dec_T x y then true else false.

Definition fneg (x : float64) : float64 :=
  match x with
  | NaN => NaN
  | PInf => NInf
  | NInf => PInf
  | Fin a => Fin (- a)
  end.

Definition fadd (x y : float64) : float64 :=
  match x, y with
  | NaN, _ => NaN
  | _, NaN => NaN
  | PInf, NInf => NaN
  | NInf, PInf => NaN
  | PInf, _ => PInf
  | _, PInf => PInf
  | NInf, _ => NInf
  | _, NInf => NInf
  | Fin a, Fin b => Fin (a + b)
  end.

Definition fsub (x y : float64) : float64 :=
  match x, y with
  | NaN, _ => NaN
  | _, NaN => NaN
  | PInf, PInf => NaN
  | NInf, NInf => NaN
  | PInf, _ => PInf
  | _, NInf => PInf
  | NInf, _ => NInf
  | _, PInf => NInf
  | Fin a, Fin b => Fin (a - b)
  end.

(** [inf * a] for a finite [a]: the sign of [a] decides, [inf * 0] is NaN. *)
Definition scale_inf (pos neg : float64) (a : R) : float64 :=
  if Rltb 0 a then pos else if Rltb a 0 then neg else NaN.

Definition fmul (x y : float64) : float64 :=
  match x, y with
  | NaN, _ => NaN
  | _, NaN => NaN
  | Fin a, Fin b => Fin (a * b)
  | Fin a, PInf => scale_inf PInf NInf a
  | PInf, Fin a => scale_inf PInf NInf a
  | Fin a, NInf => scale_inf NInf PInf a
  | NInf, Fin a => scale_inf NInf PInf a
  | PInf, PInf => PInf
  | NInf, NInf => PInf
  | PInf, NInf => NInf
  | NInf, PInf => NInf
  end.

(** Division.  A zero divisor gives an infinity of the sign of the dividend
    ([0/0] is NaN); NumPy warns and does not raise. *)
Definition fdiv (x y : float64) : float64 :=
  match x, y with
  | NaN, _ => NaN
  | _, NaN => NaN
  | Fin a, Fin b =>
      if Reqb b 0 then scale_inf PInf NInf a else Fin (a / b)
  | Fin _, PInf => Fin 0
  | Fin _, NInf => Fin 0
  | PInf, Fin b => if Rltb b 0 then NInf else PInf
  | NInf, Fin b => if Rltb b 0 then PInf else NInf
  | PInf, PInf => NaN
  | PInf, NInf => NaN
  | NInf, PInf => NaN
  | NInf, NInf => NaN
  end.

Definition fsqrt (x : float64) : float64 :=
  match x with
  | NaN => NaN
  | PInf => PInf
  | NInf => NaN
  | Fin a => if Rltb a 0 then NaN else Fin (sqrt a)
  end.

(** Comparisons: every comparison with NaN is false. *)
Definition fltb (x y : float64) : bool :=
  match x, y with
  | NaN, _ => false
  | _, NaN => false
  | Fin a, Fin b => Rltb a b
  | NInf, NInf => false
  | NInf, _ => true
  | _, NInf => false
  | PInf, _ => false
  | Fin _, PInf => true
  end.

Definition fgtb (x y : float64) : bool := fltb y x.

Definition feqb (x y : float64) : bool :=
  match x, y with
  | Fin a, Fin b => Reqb a b
  | PInf, PInf => true
  | NInf, NInf => true
  | _, _ => false
  end.

Definition fleb (x y : float64) : bool := fltb x y || feqb x y.

Definition isnan (x : float64) : bool :=
  match x with NaN => true | _ => false end.

(** [np.isfinite] *)
Definition isfinite (x : float64) : bool :=
  match x with Fin _ => true | _ => false end.

(** [np.maximum] and [np.minimum]: NaN propagates. *)
Definition fmaximum (x y : float64) : float64 :=
  if isnan x || isnan y then NaN else if fltb x y then y else x.

Definition fminimum (x y : float64) : float64 :=
  if isnan x || isnan y then NaN else if fltb y x then y else x.

(** [np.clip(x, lo, hi)] is [np.minimum(np.maximum(x, lo), hi)]. *)
Definition clip (x lo hi : float64) : float64 :=
  fminimum (fmaximum x lo) hi.

(** [np.arccos]: NaN outside [[-1, 1]]. *)
Definition arccos (x : float64) : float64 :=
  match x with
  | Fin a => if Rleb (-1) a && Rleb a 1 then Fin (acos a) else NaN
  | _ => NaN
  end.

(** [np.degrees]: multiplication by [180/pi]. *)
Definition degrees (x : float64) : float64 := fmul x (Fin (180 / PI)).

(** ** Arrays *)

Definition ndarray : Type := list float64.
Definition vec3 : Type := (float64 * float64 * float64)%type.

Fixpoint zipWith {A B C : Type} (f : A -> B -> C)
         (xs : list A) (ys : list B) : list C :=
  match xs, ys with
  | x :: xs', y :: ys' => f x y :: zipWith f xs' ys'
  | _, _ => []
  end.

(** [xs[mask]] for a boolean mask. *)
Fixpoint compress {A : Type} (mask : list bool) (xs : list A) : list A :=
  match mask, xs with
  | m :: mask', x :: xs' =>
      if m then x :: compress mask' xs' else compress mask' xs'
  | _, _ => []
  end.

(** [base[mask] = vals]: the values are written, in order, at the positions
    where the mask holds. *)
Fixpoint put {A : Type} (base : list A) (mask : list bool) (vals : list A)
  : list A :=
  match base, mask with
  | x :: base', m :: mask' =>
      if m then
        match vals with
        | v :: vals' => v :: put base' mask' vals'
        | [] => x :: put base' mask' []
        end
      else x :: put base' mask' vals
  | _, _ => base
  end.

(** [base[mask] = s] for a scalar [s]. *)
Definition put_scalar {A : Type} (base : list A) (mask : list bool) (s : A)
  : list A :=
  zipWith (fun x (m : bool) => if m then s else x) base mask.

(** [np.where(cond, xs, s)] with a scalar third operand: both operands are
    already evaluated, the mask only selects. *)
Definition np_where (cond : list bool) (xs : ndarray) (s : float64) : ndarray :=
  zipWith (fun (m : bool) x => if m then x else s) cond xs.

Definition zeros_like (xs : ndarray) : ndarray := map (fun _ => Fin 0) xs.

Definition vadd : ndarray -> ndarray -> ndarray := zipWith fadd.
Definition vsub : ndarray -> ndarray -> ndarray := zipWith fsub.
Definition vmul : ndarray -> ndarray -> ndarray := zipWith fmul.
Definition vdiv : ndarray -> ndarray -> ndarray := zipWith fdiv.

(** scalar [op] array and array [op] scalar *)
Definition smul (s : float64) (xs : ndarray) : ndarray := map (fmul s) xs.
Definition sdiv (s : float64) (xs : ndarray) : ndarray := map (fdiv s) xs.
Definition adds (xs : ndarray) (s : float64) : ndarray :=
  map (fun x => fadd x s) xs.
Definition vgt (xs : ndarray) (s : float64) : list bool :=
  map (fun x => fgtb x s) xs.
Definition vlt (xs : ndarray) (s : float64) : list bool :=
  map (fun x => fltb x s) xs.
Definition vand : list bool -> list bool -> list bool := zipWith andb.
Definition vor : list bool -> list bool -> list bool := zipWith orb.
Definition vnot : list bool -> list bool := map negb.
Definition vclip (xs : ndarray) (lo hi : float64) : ndarray :=
  map (fun x => clip x lo hi) xs.

(** [np.min(np.vstack([a, b, c]), axis=0)] and the same with [np.max]. *)
Definition min_rows3 (a b c : ndarray) : ndarray :=
  zipWith fminimum (zipWith fminimum a b) c.
Definition max_rows3 (a b c : ndarray) : ndarray :=
  zipWith fmaximum (zipWith fmaximum a b) c.

(** ** Exceptions *)

Inductive exn : Type :=
| IndexError
| KeyError (key : string)
| TypeError
| ValueError
| ReadFailure (msg : string).

Inductive result (A : Type) : Type :=
| Ok (a : A)
| Raise (e : exn).
Arguments Ok {A} a.
Arguments Raise {A} e.

Definition bind {A B : Type} (m : result A) (k : A -> result B) : result B :=
  match m with
  | Ok a => k a
  | Raise e => Raise e
  end.

Notation "x <- m ;; k" := (bind m (fun x => k))
  (at level 61, m at next level, right associativity).

Fixpoint mapM {A B : Type} (f : A -> result B) (xs : list A)
  : result (list B) :=
  match xs with
  | [] => Ok []
  | x :: xs' => y <- f x ;; ys <- mapM f xs' ;; Ok (y :: ys)
  end.

(** ** Geometry kernel ([utils/geometric_calculation.py]) *)

Definition face : Type := (Z * Z * Z)%type.

Definition col0 (F : list face) : list Z := map (fun f => fst (fst f)) F.
Definition col1 (F : list face) : list Z := map (fun f => snd (fst f)) F.
Definition col2 (F : list face) : list Z := map (fun f => snd f) F.

(** [V[i]] for one integer index: negative indices count from the end,
    anything outside [[-N, N)] raises IndexError. *)
Definition index_row {A : Type} (V : list A) (i : Z) : result A :=
  let n := Z.of_nat (List.length V) in
  let j := (if i <? 0 then i + n else i)%Z in
  if ((0 <=? j) && (j <? n))%Z then
    match nth_error V (Z.to_nat j) with
    | Some v => Ok v
    | None => Raise IndexError
    end
  else Raise IndexError.

(** [V[idx]] for an integer index array. *)
Definition take {A : Type} (V : list A) (idx : list Z) : result (list A) :=
  mapM (index_row V) idx.

Definition vec_sub (u v : vec3) : vec3 :=
  let '(ux, uy, uz) := u in
  let '(vx, vy, vz) := v in
  (fsub ux vx, fsub uy vy, fsub uz vz).

(** [np.linalg.norm(e, axis=1)] on one row: [sqrt(add.reduce(e * e))]. *)
Definition norm_row (e : vec3) : float64 :=
  let '(x, y, z) := e in
  fsqrt (fadd (fadd (fmul x x) (fmul y y)) (fmul z z)).

(** [np.cross(u, v)] on one row. *)
Definition cross_row (u v : vec3) : vec3 :=
  let '(ux, uy, uz) := u in
  let '(vx, vy, vz) := v in
  (fsub (fmul uy vz) (fmul uz vy),
   fsub (fmul uz vx) (fmul ux vz),
   fsub (fmul ux vy) (fmul uy vx)).

Record Edges : Type := mkEdges {
  e0 : list vec3; e1 : list vec3; e2 : list vec3;
  ea : ndarray; eb : ndarray; ec : ndarray
}.

Definition triangle_edges (V : list vec3) (F : list face) : result Edges :=
  v0 <- take V (col0 F) ;;
  v1 <- take V (col1 F) ;;
  v2 <- take V (col2 F) ;;
  let e0 := zipWith vec_sub v2 v1 in
  let e1 := zipWith vec_sub v0 v2 in
  let e2 := zipWith vec_sub v1 v0 in
  let a := map norm_row e0 in
  let b := map norm_row e1 in
  let c := map norm_row e2 in
  Ok (mkEdges e0 e1 e2 a b c).

Definition triangle_area_from_edges (e2 e0 : list vec3) : ndarray :=
  let cross := zipWith cross_row e2 e0 in
  smul (Fin 0.5) (map norm_row cross).

Definition safe_acos (x : ndarray) : ndarray :=
  map arccos (vclip x (Fin (-1)) (Fin 1)).

Definition triangle_angles (a b c : ndarray) : ndarray * ndarray * ndarray :=
  let cosA := vdiv (vsub (vadd (vmul b b) (vmul c c)) (vmul a a))
                   (adds (vmul (smul (Fin 2) b) c) (Fin 1e-15)) in
  let cosB := vdiv (vsub (vadd (vmul c c) (vmul a a)) (vmul b b))
                   (adds (vmul (smul (Fin 2) c) a) (Fin 1e-15)) in
  let cosC := vdiv (vsub (vadd (vmul a a) (vmul b b)) (vmul c c))
                   (adds (vmul (smul (Fin 2) a) b) (Fin 1e-15)) in
  let A := map degrees (safe_acos cosA) in
  let B := map degrees (safe_acos cosB) in
  let C := map degrees (safe_acos cosC) in
  (A, B, C).

Definition triangle_inradius (area a b c : ndarray) : ndarray :=
  let s := smul (Fin 0.5) (vadd (vadd a b) c) in
  np_where (vgt s (Fin 0)) (vdiv area s) (Fin 0).

Definition triangle_circumradius (area a b c : ndarray) : ndarray :=
  let R := zeros_like area in
  let mask := vgt area (Fin 1e-20) in
  let R := put R mask
               (vdiv (vmul (vmul (compress mask a) (compress mask b))
                           (compress mask c))
                     (smul (Fin 4) (compress mask area))) in
  let R := put_scalar R (vnot mask) PInf in
  R.

(** ** Quality evaluator ([utils/meshQuality.py]) *)

(** The dictionary returned by [compute_mesh_quality]: one array per key. *)
Record QDict : Type := mkQDict {
  area : ndarray;
  edge_a : ndarray; edge_b : ndarray; edge_c : ndarray;
  min_edge : ndarray; max_edge : ndarray;
  angle_A : ndarray; angle_B : ndarray; angle_C : ndarray;
  min_angle : ndarray; max_angle : ndarray;
  shape_quality : ndarray;
  radius_ratio : ndarray;
  aspect_proxy : ndarray
}.

Definition compute_mesh_quality (V : list vec3) (F : list face)
  : result QDict :=
  E <- triangle_edges V F ;;
  let a := ea E in
  let b := eb E in
  let c := ec E in
  let area := triangle_area_from_edges (e2 E) (e0 E) in
  let '(A, B, C) := triangle_angles a b c in
  let denom := vadd (vadd (vmul a a) (vmul b b)) (vmul c c) in
  let sq := zeros_like area in
  let mask := vgt denom (Fin 0) in
  let sq := put sq mask
                (vdiv (smul (fmul (Fin 4) (fsqrt (Fin 3))) (compress mask area))
                      (compress mask denom)) in
  let sq := vclip sq (Fin 0) (Fin 1) in
  let r_in := triangle_inradius area a b c in
  let R_circ := triangle_circumradius area a b c in
  let rr := zeros_like area in
  let ok := vand (map isfinite R_circ) (vgt R_circ (Fin 0)) in
  let rr := put rr ok
                (vdiv (smul (Fin 2) (compress ok r_in)) (compress ok R_circ)) in
  let rr := vclip rr (Fin 0) (Fin 1) in
  Ok {| area := area;
        edge_a := a; edge_b := b; edge_c := c;
        min_edge := min_rows3 a b c;
        max_edge := max_rows3 a b c;
        angle_A := A; angle_B := B; angle_C := C;
        min_angle := min_rows3 A B C;
        max_angle := max_rows3 A B C;
        shape_quality := sq;
        radius_ratio := rr;
        aspect_proxy := np_where (vgt sq (Fin 0)) (sdiv (Fin 1) sq) PInf |}.

(** [qdict[k]] *)
Definition getitem (q : QDict) (k : string) : result ndarray :=
  let key := String.eqb k in
  if key "area" then Ok (area q)
  else if key "edge_a" then Ok (edge_a q)
  else if key "edge_b" then Ok (edge_b q)
  else if key "edge_c" then Ok (edge_c q)
  else if key "min_edge" then Ok (min_edge q)
  else if key "max_edge" then Ok (max_edge q)
  else if key "angle_A" then Ok (angle_A q)
  else if key "angle_B" then Ok (angle_B q)
  else if key "angle_C" then Ok (angle_C q)
  else if key "min_angle" then Ok (min_angle q)
  else if key "max_angle" then Ok (max_angle q)
  else if key "shape_quality" then Ok (shape_quality q)
  else if key "radius_ratio" then Ok (radius_ratio q)
  else if key "aspect_proxy" then Ok (aspect_proxy q)
  else Raise (KeyError k).

(** ** Summary aggregator ([summarize_quality]) *)

(** A Python dictionary with string keys, in insertion order. *)
Definition dict (V : Type) : Type := list (string * V).

Fixpoint dict_get {V : Type} (d : dict V) (k : string) : result V :=
  match d with
  | [] => Raise (KeyError k)
  | (k', v) :: d' => if String.eqb k k' then Ok v else dict_get d' k
  end.

Definition keys {V : Type} (d : dict V) : list string := map fst d.

Inductive pyval : Type :=
| PyInt (n : Z)
| PyFloat (x : float64).

Section Sorting.
Context {A : Type} (leb : A -> A -> bool).

Fixpoint insert (x : A) (l : list A) : list A :=
  match l with
  | [] => [x]
  | y :: l' => if leb x y then x :: l else y :: insert x l'
  end.

(** A stable sort: equal keys keep their input order. *)
Fixpoint sort (l : list A) : list A :=
  match l with
  | [] => []
  | x :: l' => insert x (sort l')
  end.
End Sorting.

Definition np_sum (xs : ndarray) : float64 := fold_left fadd xs (Fin 0).

Definition size (xs : ndarray) : nat := List.length xs.

(** [np.mean] *)
Definition np_mean (xs : ndarray) : float64 :=
  fdiv (np_sum xs) (Fin (INR (size xs))).

(** [np.median]: the mean of the middle element, or of the two middle
    elements, of the sorted array. *)
Definition np_median (xs : ndarray) : float64 :=
  let s := sort fleb xs in
  let index := (size s / 2)%nat in
  if Nat.eqb (size s mod 2) 1
  then np_mean [nth index s NaN]
  else np_mean [nth (index - 1) s NaN; nth index s NaN].

(** NumPy's [_lerp]. *)
Definition lerp (a b t : float64) : float64 :=
  let diff_b_a := fsub b a in
  if fleb (Fin 0.5) t
  then fsub b (fmul diff_b_a (fsub (Fin 1) t))
  else fadd a (fmul diff_b_a t).

(** [np.percentile(xs, q)] with the default linear method, for an integer
    percentage [q]: the virtual index [(n-1) * q/100] is split into its
    integer part and its fraction. *)
Definition np_percentile (xs : ndarray) (q : nat) : float64 :=
  let s := sort fleb xs in
  let n := size s in
  let previous := (((n - 1) * q) / 100)%nat in
  let next := Nat.min (previous + 1) (n - 1) in
  let gamma := Fin (INR (((n - 1) * q) mod 100) / 100) in
  lerp (nth previous s NaN) (nth next s NaN) gamma.

Definition stats (x : ndarray) : dict pyval :=
  let x := filter isfinite x in
  match x with
  | [] => [("n", PyInt 0)]
  | x0 :: rest =>
      [("n", PyInt (Z.of_nat (size x)));
       ("mean", PyFloat (np_mean x));
       ("median", PyFloat (np_median x));
       ("p05", PyFloat (np_percentile x 5));
       ("p25", PyFloat (np_percentile x 25));
       ("p75", PyFloat (np_percentile x 75));
       ("p95", PyFloat (np_percentile x 95));
       ("min", PyFloat (fold_left fminimum rest x0));
       ("max", PyFloat (fold_left fmaximum rest x0))]
  end.

Definition keys_of_interest : list string :=
  ["shape_quality"; "radius_ratio"; "aspect_proxy";
   "min_angle"; "max_angle"; "area"; "min_edge"; "max_edge"].

Definition summarize_quality (q : QDict) : result (dict (dict pyval)) :=
  mapM (fun k => x <- getitem q k ;; Ok (k, stats x)) keys_of_interest.

(** ** Classification *)

(** [(q["shape_quality"] < bad_sq_thresh) | (q["min_angle"] < bad_angle_thresh)],
    the expression of [main] and of [save_mesh_quality]. *)
Definition bad_mask (q : QDict) (bad_sq_thresh bad_angle_thresh : float64)
  : list bool :=
  vor (vlt (shape_quality q) bad_sq_thresh)
      (vlt (min_angle q) bad_angle_thresh).

(** One triangle of per-face values. *)
Definition is_bad (sq ma bad_sq_thresh bad_angle_thresh : float64) : bool :=
  fltb sq bad_sq_thresh || fltb ma bad_angle_thresh.

(** ** Paths ([pathlib.PurePosixPath]) *)

Fixpoint split (sep : ascii) (s : string) : list string :=
  match s with
  | EmptyString => [EmptyString]
  | String c s' =>
      if Ascii.eqb c sep then EmptyString :: split sep s'
      else match split sep s' with
           | [] => [String c EmptyString]
           | w :: ws => String c w :: ws
           end
  end.

Fixpoint join (sep : string) (l : list string) : string :=
  match l with
  | [] => EmptyString
  | [x] => x
  | x :: l' => (x ++ sep ++ join sep l')%string
  end.

Fixpoint lstrip (c : ascii) (s : string) : string :=
  match s with
  | EmptyString => EmptyString
  | String d s' => if Ascii.eqb d c then lstrip c s' else s
  end.

(** [s.rfind(c)] *)
Fixpoint rfind (c : ascii) (s : string) : option nat :=
  match s with
  | EmptyString => None
  | String d s' =>
      match rfind c s' with
      | Some i => Some (S i)
      | None => if Ascii.eqb d c then Some 0%nat else None
      end
  end.

Record PurePath : Type := mkPath {
  root : string;
  parts : list string
}.

(** [Path(s)]: the root is ["/"] (["//"] for exactly two leading slashes),
    empty and ["."] components are dropped. *)
Definition Path (s : string) : PurePath :=
  let rel := lstrip "/" s in
  let k := (String.length s - String.length rel)%nat in
  let root := if Nat.eqb k 0 then "" else if Nat.eqb k 2 then "//" else "/" in
  mkPath root
    (filter (fun x => negb (String.eqb x "") && negb (String.eqb x "."))
            (split "/" rel)).

Definition as_posix (p : PurePath) : string :=
  match root p, parts p with
  | EmptyString, [] => "."
  | r, ps => (r ++ join "/" ps)%string
  end.

Definition name (p : PurePath) : string := last (parts p) "".

Definition parent (p : PurePath) : PurePath :=
  mkPath (root p) (removelast (parts p)).

(** [name.rfind('.')] must lie strictly inside the name. *)
Definition suffix_of (name : string) : string :=
  match rfind "." name with
  | Some i =>
      if Nat.ltb 0 i && Nat.ltb i (String.length name - 1)
      then substring i (String.length name - i) name
      else ""
  | None => ""
  end.

Definition suffix (p : PurePath) : string := suffix_of (name p).

(** [name[:-len(old_suffix)]] *)
Definition stem_of (name : string) : string :=
  substring 0 (String.length name - String.length (suffix_of name)) name.

(** [p.with_suffix("")] *)
Definition with_suffix_empty (p : PurePath) : result PurePath :=
  if String.eqb (name p) "" then Raise ValueError
  else Ok (mkPath (root p) (removelast (parts p) ++ [stem_of (name p)])).

(** The text of the directory part, with its trailing separator. *)
Definition dir_text (r : string) (parents : list string) : string :=
  match parents with
  | [] => r
  | _ => (r ++ join "/" parents ++ "/")%string
  end.

(** ** Report writer ([utils/saveResults.py]) *)

Record Row : Type := mkRow {
  face_id : Z;
  v0 : Z; v1 : Z; v2 : Z;
  row_area : float64;
  row_edge_a : float64; row_edge_b : float64; row_edge_c : float64;
  row_min_edge : float64; row_max_edge : float64;
  row_angle_A : float64; row_angle_B : float64; row_angle_C : float64;
  row_min_angle : float64; row_max_angle : float64;
  row_shape_quality : float64;
  row_radius_ratio : float64;
  row_aspect_proxy : float64
}.

Definition columns (q : QDict) : list ndarray :=
  [area q; edge_a q; edge_b q; edge_c q; min_edge q; max_edge q;
   angle_A q; angle_B q; angle_C q; min_angle q; max_angle q;
   shape_quality q; radius_ratio q; aspect_proxy q].

Definition row_at (q : QDict) (F : list face) (i : nat) : Row :=
  let at_ (xs : ndarray) := nth i xs NaN in
  {| face_id := Z.of_nat i;
     v0 := nth i (col0 F) 0%Z;
     v1 := nth i (col1 F) 0%Z;
     v2 := nth i (col2 F) 0%Z;
     row_area := at_ (area q);
     row_edge_a := at_ (edge_a q);
     row_edge_b := at_ (edge_b q);
     row_edge_c := at_ (edge_c q);
     row_min_edge := at_ (min_edge q);
     row_max_edge := at_ (max_edge q);
     row_angle_A := at_ (angle_A q);
     row_angle_B := at_ (angle_B q);
     row_angle_C := at_ (angle_C q);
     row_min_angle := at_ (min_angle q);
     row_max_angle := at_ (max_angle q);
     row_shape_quality := at_ (shape_quality q);
     row_radius_ratio := at_ (radius_ratio q);
     row_aspect_proxy := at_ (aspect_proxy q) |}.

(** [pd.DataFrame({...})]: one row per face; pandas raises ValueError when
    the columns differ in length. *)
Definition DataFrame (q : QDict) (F : list face) : result (list Row) :=
  let M := List.length F in
  if forallb (fun col => Nat.eqb (List.length col) M) (columns q)
  then Ok (map (row_at q F) (seq 0 M))
  else Raise ValueError.

(** [np.where(mask)[0]] *)
Definition where_true (mask : list bool) : list nat :=
  compress mask (seq 0 (List.length mask)).

(** [df.loc[idx]] on a frame with the default integer index. *)
Definition loc (df : list Row) (idx : list nat) : result (list Row) :=
  mapM (fun i => match nth_error df i with
                 | Some r => Ok r
                 | None => Raise (KeyError "loc")
                 end) idx.

(** The order of [sort_values]: ascending, NaN last. *)
Definition key_ltb (x y : float64) : bool :=
  match x, y with
  | NaN, _ => false
  | _, NaN => true
  | _, _ => fltb x y
  end.

Definition key_eqb (x y : float64) : bool :=
  match x, y with
  | NaN, NaN => true
  | _, _ => feqb x y
  end.

(** [by=["shape_quality", "min_angle"]] *)
Definition row_leb (r1 r2 : Row) : bool :=
  key_ltb (row_shape_quality r1) (row_shape_quality r2)
  || (key_eqb (row_shape_quality r1) (row_shape_quality r2)
      && (key_ltb (row_min_angle r1) (row_min_angle r2)
          || key_eqb (row_min_angle r1) (row_min_angle r2))).

Definition sort_values (df : list Row) : list Row := sort row_leb df.

Inductive file_content : Type :=
| Csv (rows : list Row)
| Parquet (rows : list Row)
| Npz (face_ids : list Z) (F : list face) (q : QDict)
| Json (summary : dict (dict pyval)).

Inductive message : Type :=
| MsgSaved (file : string)
| MsgSavedBad (file : string) (n_bad : nat)
| MsgNoBadFaces
| MsgInputNotFound (path : string)
| MsgStart
| MsgReading (path : string)
| MsgCounts (n_vertices n_faces : nat)
| MsgReadFailed (e : exn)
| MsgComputing
| MsgSummaryHeader
| MsgShapeQuality (median mean minimum : pyval)
| MsgMinAngle (median mean minimum : pyval)
| MsgBadCount (bad_count total_count : nat) (bad_percent : float64)
| MsgSaving.

(** ** The process: standard output, the files written, exceptions *)

Record World : Type := mkWorld {
  stdout : list message;
  files : list (string * file_content)
}.

Inductive signal : Type :=
| Exception (e : exn)
| SystemExit (code : Z).

Inductive outcome (A : Type) : Type :=
| Done (a : A)
| Abort (s : signal).
Arguments Done {A} a.
Arguments Abort {A} s.

Definition IO (A : Type) : Type := World -> World * outcome A.

Definition ret {A : Type} (a : A) : IO A := fun w => (w, Done a).

Definition iobind {A B : Type} (m : IO A) (k : A -> IO B) : IO B :=
  fun w => match m w with
           | (w', Done a) => k a w'
           | (w', Abort s) => (w', Abort s)
           end.

Notation "x <~ m ;; k" := (iobind m (fun x => k))
  (at level 61, m at next level, right associativity).
Notation "m ;;; k" := (iobind m (fun _ => k))
  (at level 61, right associativity).

Definition lift {A : Type} (r : result A) : IO A :=
  fun w => match r with
           | Ok a => (w, Done a)
           | Raise e => (w, Abort (Exception e))
           end.

Definition print (m : message) : IO unit :=
  fun w => (mkWorld (stdout w ++ [m]) (files w), Done tt).

(** A write that goes through: the file is added.  [to_csv], [to_parquet],
    [savez_compressed] and [open] can raise in the program (no parquet
    engine, a directory that cannot be created or written); such a run is
    not modelled, and a statement about the files written is about a call
    that returns. *)
Definition write_file (path : string) (c : file_content) : IO unit :=
  fun w => (mkWorld (stdout w) (files w ++ [(path, c)]), Done tt).

Definition sys_exit {A : Type} (code : Z) : IO A :=
  fun w => (w, Abort (SystemExit code)).

(** [try: body except Exception as e: handler(e)]; SystemExit is not an
    Exception and passes through. *)
Definition try_except {A : Type} (body : IO A) (handler : exn -> IO A) : IO A :=
  fun w => match body w with
           | (w', Abort (Exception e)) => handler e w'
           | r => r
           end.

Definition when (b : bool) (m : IO unit) : IO unit :=
  if b then m else ret tt.

(** [save_mesh_quality].  The world records the files in the order they are
    written; creating the output directory ([mkdir(parents=True,
    exist_ok=True)]) and the writes themselves are taken to succeed. *)
Definition save_mesh_quality (qdict : QDict) (F : list face)
    (out_prefix : string)
    (save_csv save_parquet save_npz save_summary_json : bool)
    (bad_sq_thresh bad_minangle_thresh : float64) : IO unit :=
  let out_prefix := Path out_prefix in
  let target (tail : string) : IO string :=
    p <~ lift (with_suffix_empty out_prefix) ;;
    ret (as_posix p ++ tail)%string in
  let face_ids := map Z.of_nat (seq 0 (List.length F)) in
  faces_df <~ lift (DataFrame qdict F) ;;
  when save_csv
    (faces_csv <~ target "_faces.csv" ;;
     write_file faces_csv (Csv faces_df) ;;;
     print (MsgSaved faces_csv)) ;;;
  when save_parquet
    (faces_parquet <~ target "_faces.parquet" ;;
     write_file faces_parquet (Parquet faces_df) ;;;
     print (MsgSaved faces_parquet)) ;;;
  when save_npz
    (faces_npz <~ target "_faces.npz" ;;
     write_file faces_npz (Npz face_ids F qdict) ;;;
     print (MsgSaved faces_npz)) ;;;
  when save_summary_json
    (summary <~ lift (summarize_quality qdict) ;;
     summary_json <~ target "_summary.json" ;;
     write_file summary_json (Json summary) ;;;
     print (MsgSaved summary_json)) ;;;
  let mask := bad_mask qdict bad_sq_thresh bad_minangle_thresh in
  let bad_idx := where_true mask in
  if Nat.ltb 0 (List.length bad_idx) then
    bad_df <~ lift (loc faces_df bad_idx) ;;
    let bad_df := sort_values bad_df in
    bad_csv <~ target "_bad_faces.csv" ;;
    write_file bad_csv (Csv bad_df) ;;;
    print (MsgSavedBad bad_csv (List.length bad_idx))
  else
    print MsgNoBadFaces.

(** ** Command line ([main.py]) *)

(** The options declared by [parse_arguments], one constructor per
    [add_argument] destination and action. *)
Inductive cli_arg : Type :=
| opt_input_surf (path : string)
| opt_output (prefix : string)
| flag_csv
| flag_no_csv
| flag_parquet
| flag_npz
| flag_no_npz
| flag_json
| flag_no_json
| opt_bad_sq_thresh (x : float64)
| opt_bad_angle_thresh (x : float64)
| flag_summary_only.

Record Namespace : Type := mkNamespace {
  input_surf : option string;
  output : option string;
  csv : bool;
  parquet : bool;
  npz : bool;
  json : bool;
  bad_sq_thresh : float64;
  bad_angle_thresh : float64;
  summary_only : bool
}.

(** The declared defaults; [-i] has none and is not marked [required]. *)
Definition defaults : Namespace :=
  {| input_surf := None;
     output := None;
     csv := true;
     parquet := false;
     npz := true;
     json := true;
     bad_sq_thresh := Fin 0.2;
     bad_angle_thresh := Fin 10;
     summary_only := false |}.

Definition store (ns : Namespace) (a : cli_arg) : Namespace :=
  let '(mkNamespace i o c p z j s g y) := ns in
  match a with
  | opt_input_surf path => mkNamespace (Some path) o c p z j s g y
  | opt_output prefix => mkNamespace i (Some prefix) c p z j s g y
  | flag_csv => mkNamespace i o true p z j s g y
  | flag_no_csv => mkNamespace i o false p z j s g y
  | flag_parquet => mkNamespace i o c true z j s g y
  | flag_npz => mkNamespace i o c p true j s g y
  | flag_no_npz => mkNamespace i o c p false j s g y
  | flag_json => mkNamespace i o c p z true s g y
  | flag_no_json => mkNamespace i o c p z false s g y
  | opt_bad_sq_thresh x => mkNamespace i o c p z j x g y
  | opt_bad_angle_thresh x => mkNamespace i o c p z j s x y
  | flag_summary_only => mkNamespace i o c p z j s g true
  end.

Definition parse_arguments (argv : list cli_arg) : Namespace :=
  fold_left store argv defaults.

(** [np.sum(bad_mask)] *)
Definition count_true (mask : list bool) : nat :=
  List.length (filter (fun b : bool => b) mask).

Section Main.
(** The file system and the surface reader ([nibabel]) are the
    environment of a run. *)
Variable isfile : string -> bool.
Variable read_geometry : string -> result (list vec3 * list face).

(** [os.path.isfile]: [os.stat(None)] raises TypeError. *)
Definition os_path_isfile (path : option string) : result bool :=
  match path with
  | None => Raise TypeError
  | Some p => Ok (isfile p)
  end.

Definition read_freesurfer_surf (path : string)
  : result (list vec3 * list face) :=
  read_geometry path.

(** The default of [args.output]. *)
Definition default_output (input_surf : string) : result string :=
  let input_path := Path input_surf in
  p <- with_suffix_empty input_path ;;
  Ok (as_posix p ++ "_quality")%string.

Definition main (argv : list cli_arg) : IO unit :=
  let args := parse_arguments argv in
  found <~ lift (os_path_isfile (input_surf args)) ;;
  match input_surf args with
  | None => lift (Raise TypeError)
  | Some input =>
      when (negb found)
        (print (MsgInputNotFound input) ;;; sys_exit 1) ;;;
      out <~ match output args with
             | None => lift (default_output input)
             | Some o => ret o
             end ;;
      print MsgStart ;;;
      print (MsgReading input) ;;;
      VF <~ try_except
              (VF <~ lift (read_freesurfer_surf input) ;;
               print (MsgCounts (List.length (fst VF))
                                (List.length (snd VF))) ;;;
               ret VF)
              (fun e => print (MsgReadFailed e) ;;; sys_exit 1) ;;
      let '(V, F) := VF in
      print MsgComputing ;;;
      q <~ lift (compute_mesh_quality V F) ;;
      summary <~ lift (summarize_quality q) ;;
      print MsgSummaryHeader ;;;
      sq_line <~ lift (d <- dict_get summary "shape_quality" ;;
                       median <- dict_get d "median" ;;
                       mean <- dict_get d "mean" ;;
                       minimum <- dict_get d "min" ;;
                       Ok (MsgShapeQuality median mean minimum)) ;;
      print sq_line ;;;
      ma_line <~ lift (d <- dict_get summary "min_angle" ;;
                       median <- dict_get d "median" ;;
                       mean <- dict_get d "mean" ;;
                       minimum <- dict_get d "min" ;;
                       Ok (MsgMinAngle median mean minimum)) ;;
      print ma_line ;;;
      let mask := bad_mask q (bad_sq_thresh args) (bad_angle_thresh args) in
      let bad_count := count_true mask in
      let total_count := List.length F in
      let bad_percent :=
        fmul (fdiv (Fin (INR bad_count)) (Fin (INR total_count)))
             (Fin 100) in
      print (MsgBadCount bad_count total_count bad_percent) ;;;
      if summary_only args then ret tt
      else
        print MsgSaving ;;;
        save_mesh_quality q F out
          (csv args) (parquet args) (npz args) (json args)
          (bad_sq_thresh args) (bad_angle_thresh args)
  end.

(** The exit status of the interpreter: [sys.exit(n)] gives [n], an
    uncaught exception prints a traceback and gives 1, a normal return
    gives 0. *)
Definition exit_code (r : World * outcome unit) : Z :=
  match snd r with
  | Done _ => 0%Z
  | Abort (SystemExit code) => code
  | Abort (Exception _) => 1%Z
  end.

Definition empty_world : World := mkWorld [] [].

Definition run (argv : list cli_arg) : World * outcome unit :=
  main argv empty_world.
End Main.

(** ** Element-wise views

    Every vectorised function above acts on each triangle independently.
    The definitions of this section spell out what it does to one
    triangle; Part II proves that the array code computes exactly these. *)

Definition triangle : Type := (vec3 * vec3 * vec3)%type.

(** The rows of [V[F[:,0]]], [V[F[:,1]]], [V[F[:,2]]], face by face. *)
Definition gather (V : list vec3) (F : list face) : result (list triangle) :=
  mapM (fun f : face =>
          let '(i, j, k) := f in
          p0 <- index_row V i ;;
          p1 <- index_row V j ;;
          p2 <- index_row V k ;;
          Ok (p0, p1, p2)) F.

Definition tri_e0 (t : triangle) : vec3 := let '(p0, p1, p2) := t in vec_sub p2 p1.
Definition tri_e1 (t : triangle) : vec3 := let '(p0, p1, p2) := t in vec_sub p0 p2.
Definition tri_e2 (t : triangle) : vec3 := let '(p0, p1, p2) := t in vec_sub p1 p0.
Definition tri_a (t : triangle) : float64 := norm_row (tri_e0 t).
Definition tri_b (t : triangle) : float64 := norm_row (tri_e1 t).
Definition tri_c (t : triangle) : float64 := norm_row (tri_e2 t).

Definition tri_area (t : triangle) : float64 :=
  fmul (Fin 0.5) (norm_row (cross_row (tri_e2 t) (tri_e0 t))).

(** The guarded law of cosines for the angle opposite the side [a]. *)
Definition cos_law (a b c : float64) : float64 :=
  fdiv (fsub (fadd (fmul b b) (fmul c c)) (fmul a a))
       (fadd (fmul (fmul (Fin 2) b) c) (Fin 1e-15)).

Definition angle_of (a b c : float64) : float64 :=
  degrees (arccos (clip (cos_law a b c) (Fin (-1)) (Fin 1))).

Definition inradius1 (ar a b c : float64) : float64 :=
  let s := fmul (Fin 0.5) (fadd (fadd a b) c) in
  if fgtb s (Fin 0) then fdiv ar s else Fin 0.

Definition circumradius1 (ar a b c : float64) : float64 :=
  if fgtb ar (Fin 1e-20)
  then fdiv (fmul (fmul a b) c) (fmul (Fin 4) ar)
  else PInf.

Definition shape_quality1 (ar a b c : float64) : float64 :=
  let denom := fadd (fadd (fmul a a) (fmul b b)) (fmul c c) in
  clip (if fgtb denom (Fin 0)
        then fdiv (fmul (fmul (Fin 4) (fsqrt (Fin 3))) ar) denom
        else Fin 0)
       (Fin 0) (Fin 1).

Definition radius_ratio1 (ar a b c : float64) : float64 :=
  let r_in := inradius1 ar a b c in
  let R_circ := circumradius1 ar a b c in
  clip (if isfinite R_circ && fgtb R_circ (Fin 0)
        then fdiv (fmul (Fin 2) r_in) R_circ
        else Fin 0)
       (Fin 0) (Fin 1).

Definition aspect_proxy1 (sq : float64) : float64 :=
  if fgtb sq (Fin 0) then fdiv (Fin 1) sq else PInf.

Definition fmin3 (x y z : float64) : float64 := fminimum (fminimum x y) z.
Definition fmax3 (x y z : float64) : float64 := fmaximum (fmaximum x y) z.

Definition tri_shape_quality (t : triangle) : float64 :=
  shape_quality1 (tri_area t) (tri_a t) (tri_b t) (tri_c t).

Definition tri_radius_ratio (t : triangle) : float64 :=
  radius_ratio1 (tri_area t) (tri_a t) (tri_b t) (tri_c t).

Definition tri_angle_A (t : triangle) : float64 :=
  angle_of (tri_a t) (tri_b t) (tri_c t).
Definition tri_angle_B (t : triangle) : float64 :=
  angle_of (tri_b t) (tri_c t) (tri_a t).
Definition tri_angle_C (t : triangle) : float64 :=
  angle_of (tri_c t) (tri_a t) (tri_b t).

Definition edges_of (T : list triangle) : Edges :=
  mkEdges (map tri_e0 T) (map tri_e1 T) (map tri_e2 T)
          (map tri_a T) (map tri_b T) (map tri_c T).

(** The dictionary of [compute_mesh_quality], triangle by triangle. *)
Definition quality_record (T : list triangle) : QDict :=
  {| area := map tri_area T;
     edge_a := map tri_a T;
     edge_b := map tri_b T;
     edge_c := map tri_c T;
     min_edge := map (fun t => fmin3 (tri_a t) (tri_b t) (tri_c t)) T;
     max_edge := map (fun t => fmax3 (tri_a t) (tri_b t) (tri_c t)) T;
     angle_A := map tri_angle_A T;
     angle_B := map tri_angle_B T;
     angle_C := map tri_angle_C T;
     min_angle :=
       map (fun t => fmin3 (tri_angle_A t) (tri_angle_B t) (tri_angle_C t)) T;
     max_angle :=
       map (fun t => fmax3 (tri_angle_A t) (tri_angle_B t) (tri_angle_C t)) T;
     shape_quality := map tri_shape_quality T;
     radius_ratio := map tri_radius_ratio T;
     aspect_proxy := map (fun t => aspect_proxy1 (tri_shape_quality t)) T |}.

(** The same in the words of the specification, over the reals:
    [cos A = (b^2 + c^2 - a^2) / (2bc + 1e-15)], clipped to [[-1, 1]],
    inverse cosine, degrees. *)
Definition clipR (x lo hi : R) : R := Rmin (Rmax x lo) hi.

Definition law_of_cosines_degrees (a b c : R) : R :=
  acos (clipR ((b * b + c * c - a * a) / (2 * b * c + 1e-15)) (-1) 1)
  * (180 / PI).

(** ** Meshes with real coordinates

    A vertex is a point of space: three real coordinates, stored as finite
    [float64] values. *)

Definition point : Type := (R * R * R)%type.

Definition embed (p : point) : vec3 :=
  let '(x, y, z) := p in (Fin x, Fin y, Fin z).

Definition vertices (P : list point) : list vec3 := map embed P.

(** Euclidean distance of two points. *)
Definition dist (p q : point) : R :=
  let '(px, py, pz) := p in
  let '(qx, qy, qz) := q in
  sqrt ((px - qx) * (px - qx) + (py - qy) * (py - qy)
        + (pz - qz) * (pz - qz)).

(** [0.5 * |e2 x e0|] with [e2 = p1 - p0] and [e0 = p2 - p1]. *)
Definition area_of_points (p0 p1 p2 : point) : R :=
  let '(x0, y0, z0) := p0 in
  let '(x1, y1, z1) := p1 in
  let '(x2, y2, z2) := p2 in
  let cx := (y1 - y0) * (z2 - z1) - (z1 - z0) * (y2 - y1) in
  let cy := (z1 - z0) * (x2 - x1) - (x1 - x0) * (z2 - z1) in
  let cz := (x1 - x0) * (y2 - y1) - (y1 - y0) * (x2 - x1) in
  0.5 * sqrt (cx * cx + cy * cy + cz * cz).

(** A face of [F'] names the vertices of the face of [F] in another order. *)
Definition relabelled (f f' : face) : Prop :=
  let '(i, j, k) := f in
  let '(i', j', k') := f' in
  Permutation [i; j; k] [i'; j'; k'].



(** ** Order and range predicates on float64 *)

(** [x < y] and [x <= y] as IEEE orders them: NaN is unordered. *)
Definition flt (x y : float64) : Prop :=
  match x, y with
  | NaN, _ => False
  | _, NaN => False
  | Fin a, Fin b => a < b
  | NInf, NInf => False
  | NInf, _ => True
  | _, NInf => False
  | PInf, _ => False
  | Fin _, PInf => True
  end.

Definition fle (x y : float64) : Prop :=
  match x, y with
  | NaN, _ => False
  | _, NaN => False
  | Fin a, Fin b => a <= b
  | NInf, _ => True
  | _, PInf => True
  | _, _ => False
  end.

(** [x] is a finite value in [[lo, hi]]. *)
Definition within (lo hi : R) (x : float64) : Prop :=
  exists r, x = Fin r /\ lo <= r <= hi.


(** [x] is NaN, or a finite value in [[lo, hi]]. *)
Definition nan_or_within (lo hi : R) (x : float64) : Prop :=
  x = NaN \/ within lo hi x.

(** [x] is NaN, [+inf], or a finite value that is not negative. *)
Definition nan_or_nonneg (x : float64) : Prop :=
  x = NaN \/ fle (Fin 0) x.

(** [m] is one of [a], [b], [c] and not above any of them; [m] is one of
    them and not below any of them. *)
Definition least_of3 (m a b c : float64) : Prop :=
  (m = a \/ m = b \/ m = c) /\ fle m a /\ fle m b /\ fle m c.

Definition greatest_of3 (m a b c : float64) : Prop :=
  (m = a \/ m = b \/ m = c) /\ fle a m /\ fle b m /\ fle c m.

(** [np.min] and [np.max] over three values: NaN as soon as one of them is
    NaN, otherwise the least and the greatest of the three. *)
Definition min_max_of3 (mn mx a b c : float64) : Prop :=
  if isnan a || isnan b || isnan c
  then mn = NaN /\ mx = NaN
  else least_of3 mn a b c /\ greatest_of3 mx a b c.

(** A row of the per-face table is flagged when its own columns are below
    the thresholds. *)
Definition flagged (bad_sq_thresh bad_angle_thresh : float64) (r : Row) : bool :=
  is_bad (row_shape_quality r) (row_min_angle r)
         bad_sq_thresh bad_angle_thresh.

(** ** Example inputs *)

Definition q_example : QDict :=
  {| area := [Fin 1];
     edge_a := [Fin 1]; edge_b := [Fin 1]; edge_c := [Fin 1];
     min_edge := [Fin 1]; max_edge := [Fin 1];
     angle_A := [Fin 12]; angle_B := [Fin 84]; angle_C := [Fin 84];
     min_angle := [Fin 12]; max_angle := [Fin 84];
     shape_quality := [Fin 0.15];
     radius_ratio := [Fin 0.5];
     aspect_proxy := [Fin (1 / 0.15)] |}.

(** A right triangle of legs 1 and a triangle whose three vertices
    coincide. *)
Definition mesh_P : list point :=
  [(0, 0, 0); (1, 0, 0); (0, 1, 0)].

Definition mesh_F : list face :=
  [(0, 1, 2); (1, 1, 1)]%Z.

(** An environment in which every path names a file and the reader returns
    the three vertices of [mesh_P] and no face. *)
Definition every_path_is_a_file (path : string) : bool := true.

Definition read_mesh_without_faces (path : string)
  : result (list vec3 * list face) :=
  Ok (vertices mesh_P, []).

(** ** Index ranges accepted by NumPy *)

(** An integer index is accepted for [N] rows when it lies in [[-N, N)]. *)
Definition in_range (N : nat) (i : Z) : bool :=
  ((- Z.of_nat N <=? i) && (i <? Z.of_nat N))%Z.

Definition faces_in_range (N : nat) (F : list face) : bool :=
  forallb (fun f : face =>
             let '(i, j, k) := f in
             in_range N i && in_range N j && in_range N k) F.

(** ** Computations that write no file *)

Definition keeps_files {A : Type} (m : IO A) : Prop :=
  forall w, files (fst (m w)) = files w.

(** ** More environments *)

Definition no_path_is_a_file (path : string) : bool := false.

Definition read_rejects (path : string) : result (list vec3 * list face) :=
  Raise (ReadFailure "not a surface file").

Definition read_mesh_example (path : string)
  : result (list vec3 * list face) :=
  Ok (vertices mesh_P, mesh_F).


(** ** The edge and area kernel in binary64

    [triangle_edges] and [triangle_area_from_edges] once more, with a
    [float64] value as an IEEE binary64 number (a primitive float): every
    operation rounds to nearest, ties to even, and overflows to an infinity,
    as in the running program.  NumPy evaluates [v2 - v1], [e * e],
    [add.reduce] over the three columns, [np.cross] and [np.sqrt] with one
    rounding per operation, in the order written here. *)

Module Binary64.
Import PrimFloat.
#[local] Set Warnings "-inexact-float".
Local Open Scope float_scope.

Definition vec3 : Type := (float * float * float)%type.

Definition vec_sub (u v : vec3) : vec3 :=
  let '(ux, uy, uz) := u in
  let '(vx, vy, vz) := v in
  (sub ux vx, sub uy vy, sub uz vz).

(** [np.linalg.norm(e, axis=1)] on one row: [sqrt(add.reduce(e * e))]. *)
Definition norm_row (e : vec3) : float :=
  let '(x, y, z) := e in
  sqrt (add (add (mul x x) (mul y y)) (mul z z)).

(** [np.cross(u, v)] on one row. *)
Definition cross_row (u v : vec3) : vec3 :=
  let '(ux, uy, uz) := u in
  let '(vx, vy, vz) := v in
  (sub (mul uy vz) (mul uz vy),
   sub (mul uz vx) (mul ux vz),
   sub (mul ux vy) (mul uy vx)).

Record Edges : Type := mkEdges {
  e0 : list vec3; e1 : list vec3; e2 : list vec3;
  ea : list float; eb : list float; ec : list float
}.

Definition triangle_edges (V : list vec3) (F : list face) : result Edges :=
  v0 <- take V (col0 F) ;;
  v1 <- take V (col1 F) ;;
  v2 <- take V (col2 F) ;;
  let e0 := zipWith vec_sub v2 v1 in
  let e1 := zipWith vec_sub v0 v2 in
  let e2 := zipWith vec_sub v1 v0 in
  let a := map norm_row e0 in
  let b := map norm_row e1 in
  let c := map norm_row e2 in
  Ok (mkEdges e0 e1 e2 a b c).

Definition triangle_area_from_edges (e2 e0 : list vec3) : list float :=
  let cross := zipWith cross_row e2 e0 in
  map (mul 0.5) (map norm_row cross).

(** A face in the plane [z = 0] with coordinates of one decimal, and the
    two values of its area under two labellings. *)
Definition mesh_V : list vec3 :=
  [(-1.5, 0.7, 0); (0.4, -2.2, 0); (-0.7, 2.8, 0)].

Definition area_012 : float := 3.1549999999999994.
Definition area_120 : float := 3.155.

(** Finite coordinates whose squares overflow. *)
Definition large_V : list vec3 :=
  [(1e160, 0, 0); (0, 0, 0); (0, 1e160, 0)].

End Binary64.

(** ** Signs in binary64

    Two values of the specification of binary64 agree up to the sign of
    zero when they are equal or both a zero; [a] is the opposite of [b] when
    [a] and [-b] agree in that sense. *)
Inductive eqz : SpecFloat.spec_float -> SpecFloat.spec_float -> Prop :=
| eqz_refl (x : SpecFloat.spec_float) : eqz x x
| eqz_zero (s s' : bool) :
    eqz (SpecFloat.S754_zero s) (SpecFloat.S754_zero s').

Definition opposite (a b : PrimFloat.float) : Prop :=
  eqz (FloatOps.Prim2SF a) (SpecFloat.SFopp (FloatOps.Prim2SF b)).

(** The face with its vertices in the reverse order. *)
Definition reversed (f : face) : face :=
  let '(i, j, k) := f in (k, j, i).

(* ================================================================== *)
(** * Part II.  Properties                                             *)
(* ================================================================== *)

(** ** Real comparisons *)

Lemma Rltb_true (x y : R) : x < y -> Rltb x y = true.
Proof. unfold Rltb; destruct (Rlt_dec x y); tauto. Qed.

Lemma Rltb_false (x y : R) : y <= x -> Rltb x y = false.
Proof. unfold Rltb; destruct (Rlt_dec x y); [lra | reflexivity]. Qed.

Lemma Rltb_iff (x y : R) : Rltb x y = true <-> x < y.
Proof. unfold Rltb; destruct (Rlt_dec x y); split; (easy || lra). Qed.

Lemma Rleb_true (x y : R) : x <= y -> Rleb x y = true.
Proof. unfold Rleb; destruct (Rle_dec x y); tauto. Qed.

Lemma Rleb_false (x y : R) : y < x -> Rleb x y = false.
Proof. unfold Rleb; destruct (Rle_dec x y); [lra | reflexivity]. Qed.

Lemma Reqb_true (x y : R) : x = y -> Reqb x y = true.
Proof. unfold Reqb; destruct (Req_dec_T x y); tauto. Qed.

Lemma Reqb_false (x y : R) : x <> y -> Reqb x y = false.
Proof. unfold Reqb; destruct (Req_dec_T x y); tauto. Qed.

Lemma Reqb_iff (x y : R) : Reqb x y = true <-> x = y.
Proof. unfold Reqb; destruct (Req_dec_T x y); split; (easy || tauto). Qed.

(** Case analysis on every real comparison in sight. *)
Ltac rcases :=
  unfold Rltb, Rleb, Reqb in *;
  repeat match goal with
         | |- context [Rlt_dec ?x ?y] => destruct (Rlt_dec x y)
         | |- context [Rle_dec ?x ?y] => destruct (Rle_dec x y)
         | |- context [Req_dec_T ?x ?y] => destruct (Req_dec_T x y)
         | H : context [Rlt_dec ?x ?y] |- _ => destruct (Rlt_dec x y)
         | H : context [Rle_dec ?x ?y] |- _ => destruct (Rle_dec x y)
         | H : context [Req_dec_T ?x ?y] |- _ => destruct (Req_dec_T x y)
         end.

(** ** float64 order *)

Lemma fltb_spec (x y : float64) : fltb x y = true <-> flt x y.
Proof.
  destruct x, y; simpl; try (split; (easy || discriminate)).
  apply Rltb_iff.
Qed.

Lemma fleb_spec (x y : float64) : fleb x y = true <-> fle x y.
Proof.
  unfold fleb.
  destruct x, y; simpl; try (split; (easy || discriminate)).
  rewrite orb_true_iff, Rltb_iff, Reqb_iff. lra.
Qed.

Lemma fgtb_Fin (x y : R) : fgtb (Fin x) (Fin y) = Rltb y x.
Proof. reflexivity. Qed.

Lemma fle_or_gt_or_nan (x y : float64) :
  fltb y x = false -> isnan x = false -> isnan y = false -> fle x y.
Proof.
  destruct x, y; simpl; try easy.
  unfold Rltb; destruct (Rlt_dec r0 r); [discriminate | lra].
Qed.

(** ** Arrays: vectorised code is element-wise code *)

Section Fusion.
Context {X A B C : Type}.

Lemma zipWith_map (f : A -> B -> C) (g : X -> A) (h : X -> B) (T : list X) :
  zipWith f (map g T) (map h T) = map (fun t => f (g t) (h t)) T.
Proof. induction T; simpl; congruence. Qed.

Lemma compress_map (m : X -> bool) (g : X -> A) (T : list X) :
  compress (map m T) (map g T) = map g (filter m T).
Proof.
  induction T as [|t T IH]; simpl; [reflexivity|].
  destruct (m t); simpl; congruence.
Qed.

Lemma put_map (z h : X -> A) (m : X -> bool) (T : list X) :
  put (map z T) (map m T) (map h (filter m T))
  = map (fun t => if m t then h t else z t) T.
Proof.
  induction T as [|t T IH]; simpl; [reflexivity|].
  destruct (m t); simpl; congruence.
Qed.

Lemma put_scalar_map (z : X -> A) (m : X -> bool) (s : A) (T : list X) :
  put_scalar (map z T) (map m T) s
  = map (fun t => if m t then s else z t) T.
Proof.
  unfold put_scalar. induction T as [|t T IH]; simpl; congruence.
Qed.
End Fusion.

Lemma zipWith_length {A B C : Type} (f : A -> B -> C) xs ys :
  List.length (zipWith f xs ys) = Nat.min (List.length xs) (List.length ys).
Proof.
  revert ys; induction xs as [|x xs IH]; intros [|y ys]; simpl; auto.
Qed.

Lemma nth_error_zipWith {A B C : Type} (f : A -> B -> C) xs ys i x y :
  nth_error xs i = Some x -> nth_error ys i = Some y ->
  nth_error (zipWith f xs ys) i = Some (f x y).
Proof.
  revert ys i; induction xs as [|x' xs IH]; intros [|y' ys] [|i]; simpl;
    try discriminate.
  - congruence.
  - apply IH.
Qed.

Lemma nth_error_map_eq {A B : Type} (f : A -> B) l i x y :
  nth_error l i = Some x -> y = f x -> nth_error (map f l) i = Some y.
Proof. intros H ->. now apply map_nth_error. Qed.

(** Lists of one length are the projections of one list of tuples. *)
Lemma unzip2 {A B : Type} (xs : list A) (ys : list B) :
  List.length xs = List.length ys ->
  xs = map fst (combine xs ys) /\ ys = map snd (combine xs ys).
Proof.
  revert ys; induction xs as [|x xs IH]; intros [|y ys]; simpl;
    try discriminate; auto.
  intros H; injection H as H. destruct (IH ys H) as [H1 H2].
  split; f_equal; assumption.
Qed.

Lemma unzip4 {A B C D : Type} (ws : list A) (xs : list B) (ys : list C)
      (zs : list D) :
  List.length xs = List.length ws ->
  List.length ys = List.length ws ->
  List.length zs = List.length ws ->
  exists T : list (A * B * C * D),
    ws = map (fun t => fst (fst (fst t))) T
    /\ xs = map (fun t => snd (fst (fst t))) T
    /\ ys = map (fun t => snd (fst t)) T
    /\ zs = map (fun t => snd t) T.
Proof.
  intros Hx Hy Hz.
  exists (combine (combine (combine ws xs) ys) zs).
  assert (L1 : List.length (combine ws xs) = List.length ys)
    by (rewrite length_combine; lia).
  assert (L2 : List.length (combine (combine ws xs) ys) = List.length zs)
    by (rewrite !length_combine; lia).
  destruct (unzip2 ws xs (eq_sym Hx)) as [E1 E2].
  destruct (unzip2 _ ys L1) as [E3 E4].
  destruct (unzip2 _ zs L2) as [E5 E6].
  repeat split.
  - rewrite E1 at 1. rewrite E3 at 1. rewrite E5 at 1.
    rewrite !map_map. reflexivity.
  - rewrite E2 at 1. rewrite E3 at 1. rewrite E5 at 1.
    rewrite !map_map. reflexivity.
  - rewrite E4 at 1. rewrite E5 at 1. rewrite !map_map. reflexivity.
  - exact E6.
Qed.

(** Normalises a vectorised expression over projections of one list into a
    single [map]. *)
Ltac fuse :=
  unfold vadd, vsub, vmul, vdiv, smul, sdiv, adds, vgt, vlt, vand, vor, vnot,
         vclip, zeros_like, np_where, min_rows3, max_rows3;
  repeat (rewrite ?map_map, ?compress_map, ?zipWith_map, ?put_map,
                  ?put_scalar_map; cbv beta).

Section Kernel_views.
Context {X : Type} (ar a b c : X -> float64).

Lemma triangle_circumradius_map (T : list X) :
  triangle_circumradius (map ar T) (map a T) (map b T) (map c T)
  = map (fun t => circumradius1 (ar t) (a t) (b t) (c t)) T.
Proof.
  unfold triangle_circumradius. fuse.
  apply map_ext; intros t. unfold circumradius1.
  destruct (fgtb (ar t) (Fin 1e-20)); reflexivity.
Qed.

Lemma triangle_inradius_map (T : list X) :
  triangle_inradius (map ar T) (map a T) (map b T) (map c T)
  = map (fun t => inradius1 (ar t) (a t) (b t) (c t)) T.
Proof.
  unfold triangle_inradius. fuse. reflexivity.
Qed.

Lemma triangle_angles_map (T : list X) :
  triangle_angles (map a T) (map b T) (map c T)
  = (map (fun t => angle_of (a t) (b t) (c t)) T,
     map (fun t => angle_of (b t) (c t) (a t)) T,
     map (fun t => angle_of (c t) (a t) (b t)) T).
Proof.
  unfold triangle_angles, safe_acos. fuse. reflexivity.
Qed.
End Kernel_views.

(** ** Scalar facts *)

Lemma eps15_pos : 0 < 1e-15.
Proof. lra. Qed.

Lemma clip_Fin (v lo hi : R) :
  lo <= hi -> clip (Fin v) (Fin lo) (Fin hi) = Fin (clipR v lo hi).
Proof.
  intros H. unfold clip, clipR, fmaximum, fminimum, Rmin, Rmax; simpl.
  rcases; simpl; rcases; try reflexivity; try (f_equal; lra); lra.
Qed.

Lemma clipR_bounds (v lo hi : R) : lo <= hi -> lo <= clipR v lo hi <= hi.
Proof.
  intros H. unfold clipR, Rmin, Rmax.
  destruct (Rle_dec v lo); destruct (Rle_dec _ hi); lra.
Qed.

Lemma arccos_Fin (w : R) : -1 <= w <= 1 -> arccos (Fin w) = Fin (acos w).
Proof.
  intros [H1 H2]. simpl. rewrite (Rleb_true _ _ H1), (Rleb_true _ _ H2).
  reflexivity.
Qed.

Lemma fdiv_Fin (x y : R) : y <> 0 -> fdiv (Fin x) (Fin y) = Fin (x / y).
Proof. intros H. simpl. rewrite (Reqb_false _ _ H). reflexivity. Qed.

Lemma fsqrt_Fin (x : R) : 0 <= x -> fsqrt (Fin x) = Fin (sqrt x).
Proof. intros H. simpl. rewrite (Rltb_false _ _ H). reflexivity. Qed.

Lemma angle_of_real (x y z : R) :
  0 <= y -> 0 <= z ->
  angle_of (Fin x) (Fin y) (Fin z) = Fin (law_of_cosines_degrees x y z).
Proof.
  intros Hy Hz. unfold angle_of, cos_law, law_of_cosines_degrees.
  cbn [fmul fadd fsub].
  assert (Hd : 2 * y * z + 1e-15 <> 0) by (pose proof eps15_pos; nra).
  rewrite (fdiv_Fin _ _ Hd).
  rewrite clip_Fin by lra.
  rewrite arccos_Fin by (apply clipR_bounds; lra).
  reflexivity.
Qed.

(** ** C1: classification *)

Lemma is_bad_iff (sq ma t_sq t_angle : float64) :
  is_bad sq ma t_sq t_angle = true <-> flt sq t_sq \/ flt ma t_angle.
Proof.
  unfold is_bad. rewrite orb_true_iff, !fltb_spec. reflexivity.
Qed.

(** C1.  A triangle is flagged by [bad_mask] exactly when its shape quality
    is strictly below the shape threshold or its minimum angle is strictly
    below the angle threshold; either defect alone flags it, and a triangle
    with shape quality 0.15 and minimum angle 12 is bad under the default
    thresholds 0.2 and 10. *)
Theorem bad_mask_is_or (q : QDict) (t_sq t_angle : float64) (i : nat)
        (sq ma : float64) :
  nth_error (shape_quality q) i = Some sq ->
  nth_error (min_angle q) i = Some ma ->
  (exists flag, nth_error (bad_mask q t_sq t_angle) i = Some flag
                /\ (flag = true <-> flt sq t_sq \/ flt ma t_angle))
  /\ (flt sq t_sq -> nth_error (bad_mask q t_sq t_angle) i = Some true)
  /\ (flt ma t_angle -> nth_error (bad_mask q t_sq t_angle) i = Some true)
  /\ is_bad (Fin 0.15) (Fin 12)
            (bad_sq_thresh defaults) (bad_angle_thresh defaults) = true.
Proof.
  intros Hs Hm.
  assert (E : nth_error (bad_mask q t_sq t_angle) i
              = Some (is_bad sq ma t_sq t_angle)).
  { unfold bad_mask, vor, vlt, is_bad.
    apply nth_error_zipWith; (eapply nth_error_map_eq; [eassumption|reflexivity]). }
  repeat split.
  - exists (is_bad sq ma t_sq t_angle). split; [exact E | apply is_bad_iff].
  - intros H. rewrite E. f_equal. apply is_bad_iff. now left.
  - intros H. rewrite E. f_equal. apply is_bad_iff. now right.
  - apply is_bad_iff. left. simpl. lra.
Qed.

Lemma bad_mask_is_or_witness :
  nth_error (shape_quality q_example) 0 = Some (Fin 0.15)
  /\ nth_error (min_angle q_example) 0 = Some (Fin 12)
  /\ nth_error (bad_mask q_example (Fin 0.2) (Fin 10)) 0 = Some true.
Proof.
  split; [reflexivity | split; [reflexivity |]].
  destruct (bad_mask_is_or q_example (Fin 0.2) (Fin 10) 0 (Fin 0.15) (Fin 12))
    as (_ & Hsq & _); [reflexivity | reflexivity |].
  apply Hsq. simpl. lra.
Defined.

(** ** C2: interior angles *)

Lemma nth_error_zipWith_match {A B C : Type} (f : A -> B -> C) xs ys i :
  nth_error (zipWith f xs ys) i
  = match nth_error xs i, nth_error ys i with
    | Some x, Some y => Some (f x y)
    | _, _ => None
    end.
Proof.
  revert ys i; induction xs as [|x xs IH]; intros [|y ys] [|i]; simpl;
    try reflexivity.
  - destruct (nth_error xs i); reflexivity.
  - apply IH.
Qed.

(** Reads one entry of a vectorised expression. *)
Ltac entry :=
  unfold vadd, vsub, vmul, vdiv, smul, sdiv, adds, vgt, vlt, vand, vor, vnot,
         vclip, zeros_like, np_where, min_rows3, max_rows3;
  repeat rewrite ?nth_error_map, ?nth_error_zipWith_match.

(** C2.  At every index the three angles returned by [triangle_angles] are
    the law-of-cosines angles [cos A = (b^2 + c^2 - a^2) / (2bc + 1e-15)]
    (cyclically for B and C), the cosine clipped to [[-1, 1]] before the
    inverse cosine, the result in degrees; on finite non-negative edge
    lengths this is the real-number formula of the specification. *)
Theorem triangle_angles_law_of_cosines (a b c : ndarray) (i : nat)
        (x y z : float64) :
  nth_error a i = Some x ->
  nth_error b i = Some y ->
  nth_error c i = Some z ->
  let A := fst (fst (triangle_angles a b c)) in
  let B := snd (fst (triangle_angles a b c)) in
  let C := snd (triangle_angles a b c) in
  (nth_error A i = Some (angle_of x y z)
   /\ nth_error B i = Some (angle_of y z x)
   /\ nth_error C i = Some (angle_of z x y))
  /\ (forall x' y' z' : R,
         x = Fin x' -> y = Fin y' -> z = Fin z' ->
         0 <= x' -> 0 <= y' -> 0 <= z' ->
         nth_error A i = Some (Fin (law_of_cosines_degrees x' y' z'))
         /\ nth_error B i = Some (Fin (law_of_cosines_degrees y' z' x'))
         /\ nth_error C i = Some (Fin (law_of_cosines_degrees z' x' y'))).
Proof.
  intros Ha Hb Hc A B C.
  assert (E : nth_error A i = Some (angle_of x y z)
              /\ nth_error B i = Some (angle_of y z x)
              /\ nth_error C i = Some (angle_of z x y)).
  { subst A B C. unfold triangle_angles, safe_acos; simpl fst; simpl snd.
    repeat split; entry; rewrite ?Ha, ?Hb, ?Hc; reflexivity. }
  split; [exact E |].
  intros x' y' z' -> -> -> Hx Hy Hz.
  destruct E as (EA & EB & EC).
  rewrite EA, EB, EC, !angle_of_real by assumption.
  repeat split.
Qed.

Lemma triangle_angles_law_of_cosines_witness :
  nth_error [Fin 1] 0 = Some (Fin 1)
  /\ nth_error (fst (fst (triangle_angles [Fin 1] [Fin 1] [Fin 1]))) 0
     = Some (Fin (law_of_cosines_degrees 1 1 1)).
Proof.
  split; [reflexivity |].
  destruct (triangle_angles_law_of_cosines
              [Fin 1] [Fin 1] [Fin 1] 0 (Fin 1) (Fin 1) (Fin 1)
              eq_refl eq_refl eq_refl) as (_ & H).
  destruct (H 1 1 1 eq_refl eq_refl eq_refl) as (HA & _); [lra | lra | lra |].
  exact HA.
Defined.

(** ** C3: circumradius *)

Lemma fle_not_gt (x y : float64) : fle x y -> fgtb x y = false.
Proof.
  unfold fgtb. destruct x, y; simpl; try easy.
  intros H. apply Rltb_false. exact H.
Qed.

Lemma flt_gt (x y : float64) : flt y x -> fgtb x y = true.
Proof. unfold fgtb. apply fltb_spec. Qed.

(** C3.  Entry by entry, [triangle_circumradius] returns
    [(a*b*c) / (4*area)] where the area is strictly above [1e-20] and the
    sentinel [+inf] (never NaN) where it is at most [1e-20]; the function is
    total and returns one value per triangle. *)
Theorem triangle_circumradius_sentinel (area a b c : ndarray) (i : nat)
        (ar x y z : float64) :
  List.length a = List.length area ->
  List.length b = List.length area ->
  List.length c = List.length area ->
  nth_error area i = Some ar ->
  nth_error a i = Some x ->
  nth_error b i = Some y ->
  nth_error c i = Some z ->
  List.length (triangle_circumradius area a b c) = List.length area
  /\ exists Rc,
      nth_error (triangle_circumradius area a b c) i = Some Rc
      /\ (flt (Fin 1e-20) ar ->
          Rc = fdiv (fmul (fmul x y) z) (fmul (Fin 4) ar))
      /\ (forall r x' y' z' : R,
             ar = Fin r -> x = Fin x' -> y = Fin y' -> z = Fin z' ->
             1e-20 < r -> Rc = Fin (x' * y' * z' / (4 * r)))
      /\ (fle ar (Fin 1e-20) -> Rc = PInf /\ Rc <> NaN).
Proof.
  intros La Lb Lc Har Ha Hb Hc.
  destruct (unzip4 area a b c La Lb Lc) as (T & E1 & E2 & E3 & E4).
  clear La Lb Lc. subst area a b c.
  rewrite triangle_circumradius_map, !length_map.
  split; [reflexivity |].
  rewrite nth_error_map in Har, Ha, Hb, Hc |- *.
  destruct (nth_error T i) as [t|]; cbn [option_map] in *; [| discriminate].
  injection Har as Har; injection Ha as Ha; injection Hb as Hb;
    injection Hc as Hc.
  rewrite Har, Ha, Hb, Hc.
  exists (circumradius1 ar x y z). split; [reflexivity |].
  unfold circumradius1. repeat split.
  - intros H. rewrite (flt_gt _ _ H). reflexivity.
  - intros r x' y' z' -> -> -> -> H.
    rewrite fgtb_Fin, (Rltb_true _ _ H). cbn [fmul].
    apply fdiv_Fin. lra.
  - rewrite (fle_not_gt _ _ H). reflexivity.
  - rewrite (fle_not_gt _ _ H). discriminate.
Qed.

Lemma triangle_circumradius_sentinel_witness :
  nth_error [Fin 0.5; Fin 0] 1 = Some (Fin 0)
  /\ fle (Fin 0) (Fin 1e-20)
  /\ nth_error
       (triangle_circumradius [Fin 0.5; Fin 0] [Fin 1; Fin 0]
                              [Fin 1; Fin 1] [Fin 1; Fin 1]) 1
     = Some PInf.
Proof.
  split; [reflexivity |].
  assert (H0 : fle (Fin 0) (Fin 1e-20)) by (simpl; lra).
  split; [exact H0 |].
  destruct (triangle_circumradius_sentinel
              [Fin 0.5; Fin 0] [Fin 1; Fin 0] [Fin 1; Fin 1] [Fin 1; Fin 1]
              1 (Fin 0) (Fin 0) (Fin 1) (Fin 1)
              eq_refl eq_refl eq_refl eq_refl eq_refl eq_refl eq_refl)
    as (_ & Rc & HR & _ & _ & Hinf).
  rewrite HR. f_equal. apply (Hinf H0).
Defined.

(** ** The mesh pipeline, triangle by triangle *)

Lemma index_row_error {A : Type} (V : list A) (i : Z) (e : exn) :
  index_row V i = Raise e -> e = IndexError.
Proof.
  unfold index_row.
  destruct (_ && _)%bool; [destruct (nth_error _ _) |]; congruence.
Qed.

Lemma mapM_cons_Ok {A B : Type} (f : A -> result B) x xs ys :
  mapM f (x :: xs) = Ok ys ->
  exists y ys', f x = Ok y /\ mapM f xs = Ok ys' /\ ys = y :: ys'.
Proof.
  simpl. destruct (f x) as [y|]; simpl; [| discriminate].
  destruct (mapM f xs) as [ys'|]; simpl; [| discriminate].
  intros H; injection H as <-. eauto.
Qed.

Lemma take_gather (V : list vec3) (F : list face) (c0 c1 c2 : list vec3) :
  take V (col0 F) = Ok c0 ->
  take V (col1 F) = Ok c1 ->
  take V (col2 F) = Ok c2 ->
  exists T, gather V F = Ok T
            /\ c0 = map (fun t : triangle => fst (fst t)) T
            /\ c1 = map (fun t : triangle => snd (fst t)) T
            /\ c2 = map (fun t : triangle => snd t) T.
Proof.
  unfold take, gather.
  revert c0 c1 c2; induction F as [|[[i j] k] F IH]; intros c0 c1 c2.
  - simpl. intros H0 H1 H2.
    injection H0 as <-; injection H1 as <-; injection H2 as <-.
    exists []. auto.
  - cbn [col0 col1 col2 map fst snd]. intros H0 H1 H2.
    apply mapM_cons_Ok in H0 as (p0 & r0 & Ei & M0 & ->).
    apply mapM_cons_Ok in H1 as (p1 & r1 & Ej & M1 & ->).
    apply mapM_cons_Ok in H2 as (p2 & r2 & Ek & M2 & ->).
    destruct (IH r0 r1 r2 M0 M1 M2) as (T & G & -> & -> & ->).
    exists ((p0, p1, p2) :: T).
    cbn [mapM]. rewrite Ei, Ej, Ek. cbn [bind].
    fold (col0 F) in *.
    rewrite G. cbn [bind]. auto.
Qed.

Lemma gather_take (V : list vec3) (F : list face) (T : list triangle) :
  gather V F = Ok T ->
  take V (col0 F) = Ok (map (fun t : triangle => fst (fst t)) T)
  /\ take V (col1 F) = Ok (map (fun t : triangle => snd (fst t)) T)
  /\ take V (col2 F) = Ok (map (fun t : triangle => snd t) T).
Proof.
  unfold take, gather.
  revert T; induction F as [|[[i j] k] F IH]; intros T.
  - simpl. intros H; injection H as <-. auto.
  - intros H. apply mapM_cons_Ok in H as (t & T' & Et & M & ->).
    destruct (index_row V i) as [p0|] eqn:Ei; [| discriminate].
    destruct (index_row V j) as [p1|] eqn:Ej; [| discriminate].
    destruct (index_row V k) as [p2|] eqn:Ek; [| discriminate].
    cbn [bind] in Et. injection Et as <-.
    destruct (IH T' M) as (H0 & H1 & H2).
    cbn [col0 col1 col2 map fst snd mapM].
    fold (col0 F); fold (col1 F); fold (col2 F).
    rewrite Ei, Ej, Ek, H0, H1, H2. auto.
Qed.

Lemma zipWith_vec_sub (T : list triangle) (g h : triangle -> vec3) :
  zipWith vec_sub (map g T) (map h T) = map (fun t => vec_sub (g t) (h t)) T.
Proof. apply zipWith_map. Qed.

Lemma triangle_edges_view (V : list vec3) (F : list face) (T : list triangle) :
  gather V F = Ok T -> triangle_edges V F = Ok (edges_of T).
Proof.
  intros G. destruct (gather_take V F T G) as (H0 & H1 & H2).
  unfold triangle_edges. rewrite H0, H1, H2. cbn [bind].
  rewrite !zipWith_vec_sub, !map_map.
  unfold edges_of. f_equal.
  f_equal; apply map_ext; intros [[p0 p1] p2]; reflexivity.
Qed.

Lemma triangle_edges_Ok (V : list vec3) (F : list face) (E : Edges) :
  triangle_edges V F = Ok E ->
  exists T, gather V F = Ok T /\ E = edges_of T.
Proof.
  unfold triangle_edges. intros H.
  destruct (take V (col0 F)) as [c0|] eqn:H0; [| discriminate].
  destruct (take V (col1 F)) as [c1|] eqn:H1; [| discriminate].
  destruct (take V (col2 F)) as [c2|] eqn:H2; [| discriminate].
  destruct (take_gather V F c0 c1 c2 H0 H1 H2) as (T & G & -> & -> & ->).
  exists T. split; [exact G |].
  pose proof (triangle_edges_view V F T G) as W.
  unfold triangle_edges in W. rewrite H0, H1, H2 in W.
  cbn [bind] in *. congruence.
Qed.

Lemma triangle_area_view (T : list triangle) :
  triangle_area_from_edges (map tri_e2 T) (map tri_e0 T) = map tri_area T.
Proof. unfold triangle_area_from_edges. fuse. reflexivity. Qed.

Lemma compute_mesh_quality_view (V : list vec3) (F : list face)
      (T : list triangle) :
  gather V F = Ok T -> compute_mesh_quality V F = Ok (quality_record T).
Proof.
  intros G. unfold compute_mesh_quality.
  rewrite (triangle_edges_view V F T G).
  cbn [bind edges_of ea eb ec e0 e2].
  rewrite triangle_area_view, triangle_angles_map.
  rewrite triangle_inradius_map, triangle_circumradius_map.
  cbv iota beta. unfold quality_record. f_equal. f_equal.
  - fuse. reflexivity.
  - fuse. reflexivity.
  - fuse. reflexivity.
  - fuse. reflexivity.
  - fuse. apply map_ext. intros t.
    unfold tri_shape_quality, shape_quality1. cbv zeta.
    destruct (fgtb _ _); reflexivity.
  - fuse. apply map_ext. intros t.
    unfold tri_radius_ratio, radius_ratio1. cbv zeta.
    destruct (isfinite _ && _); reflexivity.
  - fuse. apply map_ext. intros t.
    unfold tri_shape_quality, shape_quality1, aspect_proxy1. cbv zeta.
    destruct (fgtb (fadd _ _) _); reflexivity.
Qed.

Lemma compute_mesh_quality_Ok (V : list vec3) (F : list face) (q : QDict) :
  compute_mesh_quality V F = Ok q ->
  exists T, gather V F = Ok T /\ q = quality_record T.
Proof.
  intros H.
  destruct (triangle_edges V F) as [E|e] eqn:HE.
  - destruct (triangle_edges_Ok V F E HE) as (T & G & _).
    exists T. split; [exact G |].
    rewrite (compute_mesh_quality_view V F T G) in H. congruence.
  - unfold compute_mesh_quality in H. rewrite HE in H. discriminate.
Qed.

Lemma index_row_In {A : Type} (V : list A) (i : Z) (v : A) :
  index_row V i = Ok v -> In v V.
Proof.
  unfold index_row.
  destruct (_ && _)%bool; [| discriminate].
  destruct (nth_error _ _) eqn:E; [| discriminate].
  intros H; injection H as <-. eapply nth_error_In; eassumption.
Qed.



Lemma gather_nth (V : list vec3) (F : list face) (T : list triangle)
      (n : nat) (i j k : Z) :
  gather V F = Ok T ->
  nth_error F n = Some (i, j, k) ->
  exists p0 p1 p2,
    index_row V i = Ok p0 /\ index_row V j = Ok p1 /\ index_row V k = Ok p2
    /\ nth_error T n = Some (p0, p1, p2).
Proof.
  unfold gather. revert T n.
  induction F as [|[[i' j'] k'] F IH]; intros T n G Hn.
  - destruct n; discriminate.
  - apply mapM_cons_Ok in G as (t & T' & Et & M & ->).
    destruct n as [|n].
    + simpl in Hn. injection Hn as -> -> ->.
      destruct (index_row V i) as [p0|]; [| discriminate].
      destruct (index_row V j) as [p1|]; [| discriminate].
      destruct (index_row V k) as [p2|]; [| discriminate].
      cbn [bind] in Et. injection Et as <-.
      exists p0, p1, p2. auto.
    + simpl in Hn. simpl. eapply IH; eassumption.
Qed.

Lemma gather_length (V : list vec3) (F : list face) (T : list triangle) :
  gather V F = Ok T -> List.length T = List.length F.
Proof.
  unfold gather. revert T. induction F as [|f F IH]; intros T G.
  - simpl in G. injection G as <-. reflexivity.
  - apply mapM_cons_Ok in G as (t & T' & _ & M & ->).
    simpl. f_equal. auto.
Qed.

(** ** Real triangles *)

Lemma norm_row_Fin (x y z : R) :
  norm_row (Fin x, Fin y, Fin z) = Fin (sqrt (x * x + y * y + z * z)).
Proof. unfold norm_row. cbn [fmul fadd]. apply fsqrt_Fin. nra. Qed.

Lemma tri_a_real (p0 p1 p2 : point) :
  tri_a (embed p0, embed p1, embed p2) = Fin (dist p2 p1).
Proof.
  destruct p0 as [[x0 y0] z0], p1 as [[x1 y1] z1], p2 as [[x2 y2] z2].
  unfold tri_a, tri_e0, embed, vec_sub, dist. cbn [fsub].
  apply norm_row_Fin.
Qed.

Lemma tri_b_real (p0 p1 p2 : point) :
  tri_b (embed p0, embed p1, embed p2) = Fin (dist p0 p2).
Proof.
  destruct p0 as [[x0 y0] z0], p1 as [[x1 y1] z1], p2 as [[x2 y2] z2].
  unfold tri_b, tri_e1, embed, vec_sub, dist. cbn [fsub].
  apply norm_row_Fin.
Qed.

Lemma tri_c_real (p0 p1 p2 : point) :
  tri_c (embed p0, embed p1, embed p2) = Fin (dist p1 p0).
Proof.
  destruct p0 as [[x0 y0] z0], p1 as [[x1 y1] z1], p2 as [[x2 y2] z2].
  unfold tri_c, tri_e2, embed, vec_sub, dist. cbn [fsub].
  apply norm_row_Fin.
Qed.

Lemma tri_area_real (p0 p1 p2 : point) :
  tri_area (embed p0, embed p1, embed p2) = Fin (area_of_points p0 p1 p2).
Proof.
  destruct p0 as [[x0 y0] z0], p1 as [[x1 y1] z1], p2 as [[x2 y2] z2].
  unfold tri_area, tri_e0, tri_e2, embed, vec_sub, cross_row, area_of_points.
  cbn [fsub fmul]. rewrite norm_row_Fin. reflexivity.
Qed.

(** ** C4: ranges of the quality scores *)








(** Finite coordinates are not enough either once the arithmetic is that
    of binary64: for coordinates of magnitude [1e160] the squares overflow,
    the three edge lengths and the area are [+inf], and the quotient of the
    shape quality is [inf / inf]. *)
Lemma finite_coordinates_overflow_in_binary64 :
  exists E,
    Binary64.triangle_edges Binary64.large_V [(0, 1, 2)%Z] = Ok E
    /\ Binary64.ea E = [PrimFloat.infinity]
    /\ Binary64.eb E = [PrimFloat.infinity]
    /\ Binary64.ec E = [PrimFloat.infinity]
    /\ Binary64.triangle_area_from_edges (Binary64.e2 E) (Binary64.e0 E)
       = [PrimFloat.infinity].
Proof.
  eexists. split; [vm_compute; reflexivity |].
  repeat split; vm_compute; reflexivity.
Qed.

(** ** C6: the area does not depend on the labelling of the vertices *)

Lemma perm3_cases {A : Type} (a b c a' b' c' : A) :
  Permutation [a; b; c] [a'; b'; c'] ->
  (a' = a /\ b' = b /\ c' = c) \/ (a' = a /\ b' = c /\ c' = b)
  \/ (a' = b /\ b' = a /\ c' = c) \/ (a' = b /\ b' = c /\ c' = a)
  \/ (a' = c /\ b' = a /\ c' = b) \/ (a' = c /\ b' = b /\ c' = a).
Proof.
  intros H.
  assert (Ha : In a [a'; b'; c'])
    by (eapply Permutation_in; [exact H | now left]).
  destruct Ha as [<- | [<- | [<- | []]]].
  - apply Permutation_cons_inv in H.
    apply Permutation_length_2_inv in H as [H | H]; injection H as -> ->; tauto.
  - apply (Permutation_cons_app_inv [a'] [c']) in H.
    apply Permutation_length_2_inv in H as [H | H]; injection H as -> ->; tauto.
  - apply (Permutation_cons_app_inv [a'; b'] []) in H.
    apply Permutation_length_2_inv in H as [H | H]; injection H as -> ->; tauto.
Qed.

Lemma area_of_points_perm (p0 p1 p2 q0 q1 q2 : point) :
  Permutation [p0; p1; p2] [q0; q1; q2] ->
  area_of_points q0 q1 q2 = area_of_points p0 p1 p2.
Proof.
  intros H.
  destruct (perm3_cases _ _ _ _ _ _ H)
    as [H'|[H'|[H'|[H'|[H'|H']]]]]; destruct H' as (-> & -> & ->);
    destruct p0 as [[x0 y0] z0], p1 as [[x1 y1] z1], p2 as [[x2 y2] z2];
    unfold area_of_points; f_equal; f_equal; ring.
Qed.

Ltac perm3 :=
  first
    [ apply Permutation_refl
    | apply perm_swap
    | apply perm_skip; apply perm_swap
    | match goal with
      | |- Permutation (?a :: _) [?x; ?y; ?a] =>
          apply (Permutation_cons_app [x; y] [] a)
      | |- Permutation (?a :: _) [?x; ?a; ?y] =>
          apply (Permutation_cons_app [x] [y] a)
      end; first [apply Permutation_refl | apply perm_swap] ].


(** *** Reversing the order of the vertices, in binary64 *)

Section Signs.
Import SpecFloat.
Variable prec : Z.
Variable emax : Z.

(** Rounding treats the two signs alike. *)
Lemma binary_round_aux_opp (s : bool) (m e : Z) (l : location) :
  binary_round_aux prec emax (negb s) m e l
  = SFopp (binary_round_aux prec emax s m e l).
Proof.
  unfold binary_round_aux.
  destruct (shr_fexp prec emax m e l) as [mrs' e'].
  destruct (shr_fexp prec emax _ e' loc_Exact) as [mrs'' e''].
  destruct (shr_m mrs''); [reflexivity | | reflexivity].
  destruct (Z.leb e'' (Z.sub emax prec)); reflexivity.
Qed.

Lemma binary_round_opp (s : bool) (m : positive) (e : Z) :
  binary_round prec emax (negb s) m e = SFopp (binary_round prec emax s m e).
Proof.
  unfold binary_round. destruct (shl_align _ _ _) as [mz ez].
  apply binary_round_aux_opp.
Qed.

Lemma SFopp_involutive (x : spec_float) : SFopp (SFopp x) = x.
Proof. destruct x; simpl; rewrite ?negb_involutive; reflexivity. Qed.

Lemma eqz_trans (x y z : spec_float) : eqz x y -> eqz y z -> eqz x z.
Proof. destruct 1; inversion 1; subst; constructor. Qed.

Lemma binary_normalize_opp (m e : Z) :
  eqz (binary_normalize prec emax (Z.opp m) e false)
      (SFopp (binary_normalize prec emax m e false)).
Proof.
  destruct m as [|p|p]; simpl.
  - constructor.
  - rewrite (binary_round_opp false). constructor.
  - rewrite (binary_round_opp false), SFopp_involutive. constructor.
Qed.

(** [x - y] is the opposite of [y - x]; when both are zero, both are the
    zero of the rounding mode, [+0]. *)
Lemma SFsub_opp (x y : spec_float) :
  eqz (SFsub prec emax x y) (SFopp (SFsub prec emax y x)).
Proof.
  destruct x as [sx|sx| |sx mx ex], y as [sy|sy| |sy my ey];
    try (destruct sx, sy; simpl; constructor);
    try (simpl; rewrite ?negb_involutive; constructor).
  cbn [SFsub]. rewrite (Z.min_comm ey ex).
  set (ez := Z.min ex ey).
  set (X := cond_Zopp sx _). set (Y := cond_Zopp sy _).
  replace (Z.sub X Y) with (Z.opp (Z.sub Y X)) by lia.
  apply binary_normalize_opp.
Qed.

Lemma xorb_negb_negb (a b : bool) : xorb (negb a) (negb b) = xorb a b.
Proof. destruct a, b; reflexivity. Qed.

Lemma SFmul_comm (x y : spec_float) :
  SFmul prec emax x y = SFmul prec emax y x.
Proof.
  destruct x as [sx|sx| |sx mx ex], y as [sy|sy| |sy my ey]; simpl;
    rewrite ?(xorb_comm sy sx); try reflexivity.
  now rewrite (Pos.mul_comm my mx), (Z.add_comm ey ex).
Qed.

Lemma SFmul_opp_opp (x y : spec_float) :
  SFmul prec emax (SFopp x) (SFopp y) = SFmul prec emax x y.
Proof.
  destruct x as [sx|sx| |sx mx ex], y as [sy|sy| |sy my ey]; simpl;
    rewrite ?xorb_negb_negb; reflexivity.
Qed.

Lemma SFmul_eqz (x x' y y' : spec_float) :
  eqz x x' -> eqz y y' ->
  eqz (SFmul prec emax x y) (SFmul prec emax x' y').
Proof.
  intros [x0 | s s'] [y0 | t t'].
  - constructor.
  - destruct x0; simpl; constructor.
  - destruct y0; simpl; constructor.
  - simpl. constructor.
Qed.

Lemma SFsub_eqz (x x' y y' : spec_float) :
  eqz x x' -> eqz y y' ->
  eqz (SFsub prec emax x y) (SFsub prec emax x' y').
Proof.
  intros [x0 | s s'] [y0 | t t'].
  - constructor.
  - destruct x0 as [sx|sx| |sx mx ex]; try (simpl; constructor).
    destruct sx, t, t'; simpl; constructor.
  - destruct y0 as [sy|sy| |sy my ey]; try (simpl; constructor).
    destruct s, s', sy; simpl; constructor.
  - destruct s, s', t, t'; simpl; constructor.
Qed.

(** A square forgets the sign. *)
Lemma SFmul_square (x y : spec_float) :
  eqz x (SFopp y) -> SFmul prec emax x x = SFmul prec emax y y.
Proof.
  intros H. inversion H as [x0 E1 E2 | s s' E1 E2]; subst.
  - apply SFmul_opp_opp.
  - destruct y as [sy|sy| |sy my ey]; try discriminate.
    simpl. now rewrite !xorb_nilpotent.
Qed.

(** The component [p'q' - r's'] of the cross product of the reversed edges
    is the opposite of the component [pq - rs]. *)
Lemma SFdet_opp (p q r s p' q' r' s' : spec_float) :
  eqz p' (SFopp s) -> eqz q' (SFopp r) ->
  eqz r' (SFopp q) -> eqz s' (SFopp p) ->
  eqz (SFsub prec emax (SFmul prec emax p' q') (SFmul prec emax r' s'))
      (SFopp (SFsub prec emax (SFmul prec emax p q) (SFmul prec emax r s))).
Proof.
  intros Hp Hq Hr Hs.
  eapply eqz_trans; [| apply SFsub_opp].
  apply SFsub_eqz.
  - eapply eqz_trans; [apply (SFmul_eqz _ _ _ _ Hp Hq) |].
    rewrite SFmul_opp_opp, SFmul_comm. constructor.
  - eapply eqz_trans; [apply (SFmul_eqz _ _ _ _ Hr Hs) |].
    rewrite SFmul_opp_opp, SFmul_comm. constructor.
Qed.
End Signs.

Lemma sub_opposite (a b : PrimFloat.float) :
  opposite (PrimFloat.sub a b) (PrimFloat.sub b a).
Proof. unfold opposite. rewrite !FloatAxioms.sub_spec. apply SFsub_opp. Qed.

Lemma det_opposite (p q r s p' q' r' s' : PrimFloat.float) :
  opposite p' s -> opposite q' r -> opposite r' q -> opposite s' p ->
  opposite (PrimFloat.sub (PrimFloat.mul p' q') (PrimFloat.mul r' s'))
           (PrimFloat.sub (PrimFloat.mul p q) (PrimFloat.mul r s)).
Proof.
  unfold opposite. intros Hp Hq Hr Hs.
  rewrite !FloatAxioms.sub_spec, !FloatAxioms.mul_spec.
  apply SFdet_opp; assumption.
Qed.

Lemma square_of_opposite (x y : PrimFloat.float) :
  opposite x y -> PrimFloat.mul x x = PrimFloat.mul y y.
Proof.
  intros H. apply FloatAxioms.Prim2SF_inj.
  rewrite !FloatAxioms.mul_spec. apply SFmul_square, H.
Qed.

(** One face: the cross product of the reversed labelling has the norm of
    the cross product of the labelling itself, bit for bit. *)
Lemma norm_cross_reversed (p0 p1 p2 : Binary64.vec3) :
  Binary64.norm_row
    (Binary64.cross_row (Binary64.vec_sub p1 p2) (Binary64.vec_sub p0 p1))
  = Binary64.norm_row
      (Binary64.cross_row (Binary64.vec_sub p1 p0) (Binary64.vec_sub p2 p1)).
Proof.
  destruct p0 as [[x0 y0] z0], p1 as [[x1 y1] z1], p2 as [[x2 y2] z2].
  unfold Binary64.vec_sub, Binary64.cross_row, Binary64.norm_row.
  rewrite (square_of_opposite _ _
             (det_opposite _ _ _ _ _ _ _ _
                (sub_opposite y1 y2) (sub_opposite z0 z1)
                (sub_opposite z1 z2) (sub_opposite y0 y1))).
  rewrite (square_of_opposite _ _
             (det_opposite _ _ _ _ _ _ _ _
                (sub_opposite z1 z2) (sub_opposite x0 x1)
                (sub_opposite x1 x2) (sub_opposite z0 z1))).
  rewrite (square_of_opposite _ _
             (det_opposite _ _ _ _ _ _ _ _
                (sub_opposite x1 x2) (sub_opposite y0 y1)
                (sub_opposite y1 y2) (sub_opposite x0 x1))).
  reflexivity.
Qed.

Lemma zipWith_nil_r {A B C : Type} (f : A -> B -> C) (xs : list A) :
  zipWith f xs [] = [].
Proof. destruct xs; reflexivity. Qed.

Lemma area_reversed (v0 v1 v2 : list Binary64.vec3) :
  Binary64.triangle_area_from_edges
    (zipWith Binary64.vec_sub v1 v2) (zipWith Binary64.vec_sub v0 v1)
  = Binary64.triangle_area_from_edges
      (zipWith Binary64.vec_sub v1 v0) (zipWith Binary64.vec_sub v2 v1).
Proof.
  unfold Binary64.triangle_area_from_edges. f_equal.
  revert v0 v2. induction v1 as [|p1 v1 IH]; intros v0 v2.
  - destruct v0, v2; reflexivity.
  - destruct v0 as [|p0 v0], v2 as [|p2 v2]; cbn [zipWith map];
      rewrite ?zipWith_nil_r; try reflexivity.
    f_equal; [apply norm_cross_reversed | apply IH].
Qed.

Lemma cols_reversed (F : list face) :
  col0 (map reversed F) = col2 F
  /\ col1 (map reversed F) = col1 F
  /\ col2 (map reversed F) = col0 F.
Proof.
  unfold col0, col1, col2. rewrite !map_map.
  repeat split; apply map_ext; intros [[i j] k]; reflexivity.
Qed.

Lemma reversed_relabelled (F : list face) :
  Forall2 relabelled F (map reversed F).
Proof.
  induction F as [|[[i j] k] F IH]; cbn [map]; constructor; [| exact IH].
  unfold relabelled, reversed. perm3.
Qed.

(** In binary64 the area of every face is the same, bit for bit (NaN for
    NaN), when the order of its vertices is reversed. *)
Lemma float_area_reversed (V : list Binary64.vec3) (F : list face)
      (E : Binary64.Edges) :
  Binary64.triangle_edges V F = Ok E ->
  exists E',
    Binary64.triangle_edges V (map reversed F) = Ok E'
    /\ Binary64.triangle_area_from_edges (Binary64.e2 E') (Binary64.e0 E')
       = Binary64.triangle_area_from_edges (Binary64.e2 E) (Binary64.e0 E).
Proof.
  unfold Binary64.triangle_edges.
  destruct (cols_reversed F) as (-> & -> & ->).
  destruct (take V (col0 F)) as [c0|]; [| discriminate].
  destruct (take V (col1 F)) as [c1|]; [| discriminate].
  destruct (take V (col2 F)) as [c2|]; [| discriminate].
  cbn [bind]. intros H. injection H as <-.
  eexists. split; [reflexivity |].
  cbn [Binary64.e2 Binary64.e0]. apply area_reversed.
Qed.

(** C6, amended.  The area [0.5 * |e2 x e0|] that [triangle_edges] and
    [triangle_area_from_edges] compute with the fixed edge convention is
    unchanged, bit for bit (NaN for NaN), when the order of the three
    vertices of a face is reversed: this holds in binary64, for every mesh.
    The formula itself, over the real numbers, has the same value under
    every relabelling of the three vertices.  The binary64 values under the
    relabellings other than the reversal can differ by rounding: see the
    face of [Binary64.mesh_V] below. *)
Theorem area_under_relabelling :
  (forall (V : list Binary64.vec3) (F : list face) (E : Binary64.Edges),
      Binary64.triangle_edges V F = Ok E ->
      Forall2 relabelled F (map reversed F)
      /\ exists E',
          Binary64.triangle_edges V (map reversed F) = Ok E'
          /\ Binary64.triangle_area_from_edges
               (Binary64.e2 E') (Binary64.e0 E')
             = Binary64.triangle_area_from_edges
                 (Binary64.e2 E) (Binary64.e0 E))
  /\ (forall p0 p1 p2 q0 q1 q2 : point,
        Permutation [p0; p1; p2] [q0; q1; q2] ->
        area_of_points q0 q1 q2 = area_of_points p0 p1 p2).
Proof.
  split.
  - intros V F E HE. split; [apply reversed_relabelled |].
    apply float_area_reversed, HE.
  - exact area_of_points_perm.
Qed.

Lemma area_under_relabelling_witness :
  (exists E E',
      Binary64.triangle_edges Binary64.mesh_V [(0, 1, 2)%Z] = Ok E
      /\ Binary64.triangle_edges Binary64.mesh_V [(2, 1, 0)%Z] = Ok E'
      /\ Binary64.triangle_area_from_edges (Binary64.e2 E') (Binary64.e0 E')
         = Binary64.triangle_area_from_edges (Binary64.e2 E) (Binary64.e0 E))
  /\ area_of_points (0, 1, 0) (0, 0, 0) (1, 0, 0)
     = area_of_points (0, 0, 0) (1, 0, 0) (0, 1, 0).
Proof.
  destruct area_under_relabelling as [Hfloat Hreal].
  split.
  - destruct (Hfloat Binary64.mesh_V [(0, 1, 2)%Z] _ eq_refl)
      as (_ & E' & HE' & HA).
    eexists; exists E'. split; [reflexivity |]. split; [exact HE' | exact HA].
  - apply Hreal. perm3.
Defined.

(** In binary64 the area does depend on the labelling.  The face with
    vertices [(-1.5, 0.7, 0)], [(0.4, -2.2, 0)], [(-0.7, 2.8, 0)] has the
    area [3.1549999999999994] under the labelling [(0, 1, 2)] and [3.155]
    under the cyclic relabelling [(1, 2, 0)]: the two cross products round
    differently. *)
Theorem float_area_changes_with_labelling :
  relabelled (0, 1, 2)%Z (1, 2, 0)%Z
  /\ (exists E,
        Binary64.triangle_edges Binary64.mesh_V [(0, 1, 2)%Z] = Ok E
        /\ Binary64.triangle_area_from_edges (Binary64.e2 E) (Binary64.e0 E)
           = [Binary64.area_012])
  /\ (exists E',
        Binary64.triangle_edges Binary64.mesh_V [(1, 2, 0)%Z] = Ok E'
        /\ Binary64.triangle_area_from_edges (Binary64.e2 E') (Binary64.e0 E')
           = [Binary64.area_120])
  /\ PrimFloat.ltb Binary64.area_012 Binary64.area_120 = true.
Proof.
  split; [unfold relabelled; perm3 |].
  split; [eexists; split; vm_compute; reflexivity |].
  split; [eexists; split; vm_compute; reflexivity |].
  vm_compute. reflexivity.
Qed.

(** ** C10: a triangle whose three vertices coincide *)

Lemma dist_self (p : point) : dist p p = 0.
Proof.
  destruct p as [[x y] z]. unfold dist.
  replace ((x - x) * (x - x) + (y - y) * (y - y) + (z - z) * (z - z))
    with 0 by ring.
  apply sqrt_0.
Qed.

Lemma area_of_points_self (p : point) : area_of_points p p p = 0.
Proof.
  destruct p as [[x y] z]. unfold area_of_points. cbv zeta.
  match goal with
  | |- 0.5 * sqrt ?e = 0 => replace e with 0 by ring
  end.
  rewrite sqrt_0. lra.
Qed.

Lemma clipR_inside (v lo hi : R) : lo <= v <= hi -> clipR v lo hi = v.
Proof.
  intros H. unfold clipR, Rmin, Rmax.
  destruct (Rle_dec v lo); destruct (Rle_dec _ hi); lra.
Qed.

(** The guarded cosine of three zero lengths is [0 / 1e-15 = 0]. *)
Lemma guarded_cosine_zero :
  (0 * 0 + 0 * 0 - 0 * 0) / (2 * 0 * 0 + 1e-15) = 0.
Proof. lra. Qed.

Lemma law_of_cosines_degrees_zero : law_of_cosines_degrees 0 0 0 = 90.
Proof.
  unfold law_of_cosines_degrees.
  rewrite guarded_cosine_zero, clipR_inside by lra.
  rewrite acos_0. field. apply PI_neq0.
Qed.

Lemma angle_of_zero : angle_of (Fin 0) (Fin 0) (Fin 0) = Fin 90.
Proof.
  rewrite angle_of_real by lra. f_equal. apply law_of_cosines_degrees_zero.
Qed.

Lemma shape_quality1_zero : shape_quality1 (Fin 0) (Fin 0) (Fin 0) (Fin 0) = Fin 0.
Proof.
  unfold shape_quality1. cbn [fmul fadd]. rewrite fgtb_Fin.
  rewrite Rltb_false by lra.
  rewrite clip_Fin by lra. f_equal. apply clipR_inside. lra.
Qed.

Lemma fmin3_same (r : R) : fmin3 (Fin r) (Fin r) (Fin r) = Fin r.
Proof.
  unfold fmin3, fminimum. cbn [isnan orb fltb].
  rewrite Rltb_false by lra. cbn [isnan orb fltb].
  rewrite Rltb_false by lra. reflexivity.
Qed.

Lemma coincident_triangle (p : point) :
  let t := (embed p, embed p, embed p) in
  tri_angle_A t = Fin 90 /\ tri_angle_B t = Fin 90 /\ tri_angle_C t = Fin 90
  /\ tri_shape_quality t = Fin 0.
Proof.
  intros t. subst t.
  unfold tri_angle_A, tri_angle_B, tri_angle_C, tri_shape_quality.
  rewrite tri_area_real, tri_a_real, tri_b_real, tri_c_real.
  rewrite dist_self, area_of_points_self.
  rewrite angle_of_zero, shape_quality1_zero. auto.
Qed.

(** C10.  For a face whose three vertices have the same position, each of
    the three interior angles is exactly 90 degrees, so their sum is 270 and
    the minimum angle is 90; the shape quality is 0.  Under the default
    thresholds the face is flagged, and with the angle threshold at its
    default of 10 it is flagged exactly when the shape threshold is above
    0: the minimum angle never flags it. *)
Theorem coincident_vertices_give_right_angles
        (P : list point) (F : list face) (q : QDict)
        (n : nat) (i j k : Z) (p : point) :
  compute_mesh_quality (vertices P) F = Ok q ->
  nth_error F n = Some (i, j, k) ->
  index_row (vertices P) i = Ok (embed p) ->
  index_row (vertices P) j = Ok (embed p) ->
  index_row (vertices P) k = Ok (embed p) ->
  nth_error (angle_A q) n = Some (Fin 90)
  /\ nth_error (angle_B q) n = Some (Fin 90)
  /\ nth_error (angle_C q) n = Some (Fin 90)
  /\ fadd (fadd (Fin 90) (Fin 90)) (Fin 90) = Fin 270
  /\ nth_error (min_angle q) n = Some (Fin 90)
  /\ nth_error (shape_quality q) n = Some (Fin 0)
  /\ nth_error (bad_mask q (bad_sq_thresh defaults) (bad_angle_thresh defaults))
               n = Some true
  /\ fltb (Fin 90) (bad_angle_thresh defaults) = false
  /\ (forall t_sq : float64,
         nth_error (bad_mask q t_sq (Fin 10)) n = Some (fltb (Fin 0) t_sq)).
Proof.
  intros Hq Hn Hi Hj Hk.
  destruct (compute_mesh_quality_Ok _ _ _ Hq) as (T & G & ->).
  destruct (gather_nth _ _ _ _ _ _ _ G Hn)
    as (p0 & p1 & p2 & H0 & H1 & H2 & Ht).
  rewrite Hi in H0; rewrite Hj in H1; rewrite Hk in H2.
  injection H0 as <-; injection H1 as <-; injection H2 as <-.
  destruct (coincident_triangle p) as (EA & EB & EC & ES).
  assert (A : nth_error (angle_A (quality_record T)) n = Some (Fin 90))
    by (cbn [quality_record angle_A]; rewrite nth_error_map, Ht; cbn;
        now rewrite EA).
  assert (B : nth_error (angle_B (quality_record T)) n = Some (Fin 90))
    by (cbn [quality_record angle_B]; rewrite nth_error_map, Ht; cbn;
        now rewrite EB).
  assert (C : nth_error (angle_C (quality_record T)) n = Some (Fin 90))
    by (cbn [quality_record angle_C]; rewrite nth_error_map, Ht; cbn;
        now rewrite EC).
  assert (M : nth_error (min_angle (quality_record T)) n = Some (Fin 90)).
  { cbn [quality_record min_angle]. rewrite nth_error_map, Ht.
    cbn [option_map]. rewrite EA, EB, EC, fmin3_same. reflexivity. }
  assert (S : nth_error (shape_quality (quality_record T)) n = Some (Fin 0))
    by (cbn [quality_record shape_quality]; rewrite nth_error_map, Ht; cbn;
        now rewrite ES).
  assert (Bad : forall t_sq t_angle,
             nth_error (bad_mask (quality_record T) t_sq t_angle) n
             = Some (fltb (Fin 0) t_sq || fltb (Fin 90) t_angle)).
  { intros. unfold bad_mask. entry. rewrite S, M. reflexivity. }
  assert (N : fltb (Fin 90) (Fin 10) = false)
    by (cbn [fltb]; apply Rltb_false; lra).
  repeat split; try assumption.
  - cbn [fadd]. f_equal. lra.
  - rewrite Bad. cbn [defaults bad_sq_thresh bad_angle_thresh fltb].
    rewrite Rltb_true by lra. reflexivity.
  - intros t_sq. rewrite Bad, N. apply f_equal, orb_false_r.
Qed.

Lemma coincident_vertices_give_right_angles_witness :
  exists q,
    compute_mesh_quality (vertices mesh_P) mesh_F = Ok q
    /\ nth_error mesh_F 1 = Some (1, 1, 1)%Z
    /\ index_row (vertices mesh_P) 1 = Ok (embed (1, 0, 0))
    /\ nth_error (angle_A q) 1 = Some (Fin 90)
    /\ nth_error (min_angle q) 1 = Some (Fin 90)
    /\ nth_error (shape_quality q) 1 = Some (Fin 0).
Proof.
  assert (G : gather (vertices mesh_P) mesh_F
              = Ok [(embed (0, 0, 0), embed (1, 0, 0), embed (0, 1, 0));
                    (embed (1, 0, 0), embed (1, 0, 0), embed (1, 0, 0))])
    by reflexivity.
  pose proof (compute_mesh_quality_view _ _ _ G) as Hq.
  eexists. split; [exact Hq |].
  split; [reflexivity |]. split; [reflexivity |].
  destruct (coincident_vertices_give_right_angles
              mesh_P mesh_F _ 1 1 1 1 (1, 0, 0) Hq
              eq_refl eq_refl eq_refl eq_refl)
    as (A & _ & _ & _ & M & S & _).
  split; [exact A | split; [exact M | exact S]].
Defined.

(** ** Sorting *)

Section Sort_facts.
Context {A : Type} (leb : A -> A -> bool).

Let le (x y : A) : Prop := leb x y = true.

Lemma insert_perm (x : A) (l : list A) : Permutation (insert leb x l) (x :: l).
Proof.
  induction l as [|y l IH]; simpl; [apply Permutation_refl |].
  destruct (leb x y); [apply Permutation_refl |].
  apply perm_trans with (y :: x :: l); [now apply perm_skip | apply perm_swap].
Qed.

Lemma sort_perm (l : list A) : Permutation (sort leb l) l.
Proof.
  induction l as [|x l IH]; simpl; [constructor |].
  apply perm_trans with (x :: sort leb l);
    [apply insert_perm | now apply perm_skip].
Qed.

Lemma insert_hd (x y : A) (l : list A) :
  le y x -> HdRel le y l -> HdRel le y (insert leb x l).
Proof.
  intros Hyx Hl. destruct l as [|z l]; simpl; [now constructor |].
  destruct (leb x z); constructor; [exact Hyx |].
  now inversion Hl.
Qed.

Lemma insert_sorted (x : A) (l : list A) :
  (forall y, In y l -> le x y \/ le y x) ->
  Sorted le l -> Sorted le (insert leb x l).
Proof.
  intros Htot Hs. induction Hs as [|y l Hs IH Hy]; simpl.
  - repeat constructor.
  - destruct (leb x y) eqn:E.
    + constructor; [now constructor | now constructor].
    + constructor.
      * apply IH. intros z Hz. apply Htot. now right.
      * apply insert_hd; [| exact Hy].
        destruct (Htot y (or_introl eq_refl)) as [H | H]; [| exact H].
        unfold le in H. congruence.
Qed.

Lemma sort_sorted (l : list A) :
  (forall x y, In x l -> In y l -> le x y \/ le y x) ->
  Sorted le (sort leb l).
Proof.
  induction l as [|x l IH]; intros Htot; simpl; [constructor |].
  apply insert_sorted.
  - intros y Hy. apply Htot; [now left | right].
    eapply Permutation_in; [apply sort_perm | exact Hy].
  - apply IH. intros a b Ha Hb. apply Htot; now right.
Qed.
End Sort_facts.

(** ** C5: summary statistics *)

Lemma fleb_Fin (a b : R) : fleb (Fin a) (Fin b) = Rleb a b.
Proof.
  unfold fleb. cbn [fltb feqb]. rcases; simpl; try reflexivity; lra.
Qed.

Lemma fleb_total_finite (x y : float64) :
  isfinite x = true -> isfinite y = true ->
  fleb x y = true \/ fleb y x = true.
Proof.
  destruct x as [| | |a], y as [| | |b]; try discriminate. intros _ _.
  rewrite !fleb_Fin. rcases; auto; lra.
Qed.

Lemma filter_isfinite_all (x : ndarray) :
  Forall (fun v => isfinite v = true) (filter isfinite x).
Proof. apply Forall_forall. intros v Hv. now apply filter_In in Hv. Qed.

(** The array sorted for the median and the percentiles is an ascending
    rearrangement of the finite values. *)
Lemma sort_finite (x : ndarray) :
  let xs := filter isfinite x in
  Permutation (sort fleb xs) xs
  /\ Sorted (fun a b => fleb a b = true) (sort fleb xs).
Proof.
  intros xs. split; [apply sort_perm |].
  apply sort_sorted. intros a b Ha Hb.
  pose proof (filter_isfinite_all x) as H. rewrite Forall_forall in H.
  apply fleb_total_finite; now apply H.
Qed.

Lemma fminimum_Fin (a b : R) : fminimum (Fin a) (Fin b) = Fin (Rmin a b).
Proof.
  unfold fminimum, Rmin. cbn [isnan orb fltb]. rcases; try reflexivity;
    f_equal; lra.
Qed.

Lemma fmaximum_Fin (a b : R) : fmaximum (Fin a) (Fin b) = Fin (Rmax a b).
Proof.
  unfold fmaximum, Rmax. cbn [isnan orb fltb]. rcases; try reflexivity;
    f_equal; lra.
Qed.

(** [np.min] of finite values is one of them and a lower bound of all. *)
Lemma fold_fminimum_least (rest : ndarray) (x0 : float64) :
  Forall (fun v => isfinite v = true) (x0 :: rest) ->
  let m := fold_left fminimum rest x0 in
  In m (x0 :: rest) /\ Forall (fle m) (x0 :: rest).
Proof.
  revert x0. induction rest as [|y rest IH]; intros x0 H m; subst m.
  - inversion H as [|? ? H0 _]; subst.
    destruct x0; try discriminate. simpl.
    split; [now left | constructor; [simpl; lra | constructor]].
  - inversion H as [|? ? H0 H']; subst.
    inversion H' as [|? ? Hy Hr]; subst.
    destruct x0 as [| | |a]; try discriminate.
    destruct y as [| | |b]; try discriminate.
    cbn [fold_left]. rewrite fminimum_Fin.
    destruct (IH (Fin (Rmin a b))) as [Hin Hle].
    { constructor; [reflexivity | exact Hr]. }
    inversion Hle as [|? ? Hm Hrest]; subst.
    assert (Ha : fle (fold_left fminimum rest (Fin (Rmin a b))) (Fin a)).
    { destruct (fold_left fminimum rest (Fin (Rmin a b))); simpl in *;
        auto. pose proof (Rmin_l a b). lra. }
    assert (Hb : fle (fold_left fminimum rest (Fin (Rmin a b))) (Fin b)).
    { destruct (fold_left fminimum rest (Fin (Rmin a b))); simpl in *;
        auto. pose proof (Rmin_r a b). lra. }
    split.
    + destruct Hin as [Hin | Hin]; [| now right; right].
      rewrite <- Hin. unfold Rmin. destruct (Rle_dec a b);
        [now left | right; now left].
    + constructor; [exact Ha | constructor; [exact Hb | exact Hrest]].
Qed.

(** [np.max] of finite values is one of them and an upper bound of all. *)
Lemma fold_fmaximum_greatest (rest : ndarray) (x0 : float64) :
  Forall (fun v => isfinite v = true) (x0 :: rest) ->
  let m := fold_left fmaximum rest x0 in
  In m (x0 :: rest) /\ Forall (fun v => fle v m) (x0 :: rest).
Proof.
  revert x0. induction rest as [|y rest IH]; intros x0 H m; subst m.
  - inversion H as [|? ? H0 _]; subst.
    destruct x0; try discriminate. simpl.
    split; [now left | constructor; [simpl; lra | constructor]].
  - inversion H as [|? ? H0 H']; subst.
    inversion H' as [|? ? Hy Hr]; subst.
    destruct x0 as [| | |a]; try discriminate.
    destruct y as [| | |b]; try discriminate.
    cbn [fold_left]. rewrite fmaximum_Fin.
    destruct (IH (Fin (Rmax a b))) as [Hin Hle].
    { constructor; [reflexivity | exact Hr]. }
    inversion Hle as [|? ? Hm Hrest]; subst.
    assert (Ha : fle (Fin a) (fold_left fmaximum rest (Fin (Rmax a b)))).
    { destruct (fold_left fmaximum rest (Fin (Rmax a b))); simpl in *;
        auto. pose proof (Rmax_l a b). lra. }
    assert (Hb : fle (Fin b) (fold_left fmaximum rest (Fin (Rmax a b)))).
    { destruct (fold_left fmaximum rest (Fin (Rmax a b))); simpl in *;
        auto. pose proof (Rmax_r a b). lra. }
    split.
    + destruct Hin as [Hin | Hin]; [| now right; right].
      rewrite <- Hin. unfold Rmax. destruct (Rle_dec a b);
        [right; now left | now left].
    + constructor; [exact Ha | constructor; [exact Hb | exact Hrest]].
Qed.

Lemma sort_example :
  sort fleb [Fin 0.1; Fin 0.3; Fin 0.5] = [Fin 0.1; Fin 0.3; Fin 0.5].
Proof.
  cbn [sort insert].
  rewrite fleb_Fin, Rleb_true by lra. cbn [insert].
  rewrite fleb_Fin, Rleb_true by lra. reflexivity.
Qed.

Lemma stats_example :
  let s := stats [Fin 0.1; Fin 0.3; Fin 0.5; NaN] in
  dict_get s "n" = Ok (PyInt 3)
  /\ dict_get s "min" = Ok (PyFloat (Fin 0.1))
  /\ dict_get s "max" = Ok (PyFloat (Fin 0.5))
  /\ dict_get s "median" = Ok (PyFloat (Fin 0.3)).
Proof.
  intros s. subst s. unfold stats. cbn [filter isfinite].
  split; [| split; [| split]].
  - reflexivity.
  - cbn [dict_get String.eqb Ascii.eqb Bool.eqb fold_left].
    rewrite !fminimum_Fin. do 2 f_equal. f_equal.
    unfold Rmin. rcases; lra.
  - cbn [dict_get String.eqb Ascii.eqb Bool.eqb fold_left].
    rewrite !fmaximum_Fin. do 2 f_equal. f_equal.
    unfold Rmax. rcases; lra.
  - cbn [dict_get String.eqb Ascii.eqb Bool.eqb].
    unfold np_median. rewrite sort_example.
    cbn [size List.length Nat.modulo Nat.div Nat.eqb nth Nat.divmod fst snd
         Nat.sub].
    unfold np_mean, np_sum. cbn [fold_left fadd size List.length INR].
    rewrite fdiv_Fin by lra. do 2 f_equal. f_equal. lra.
Qed.

(** C5.  [stats] computes every statistic over the finite entries only
    (NaN and the infinities are filtered out first; the median and the
    percentiles read an ascending rearrangement of them): with no finite entry
    the record is [{"n": 0}] and nothing else, without an error; otherwise
    it holds the count, mean, median, the 5th/25th/75th/95th percentiles,
    minimum and maximum of the finite entries.  Summarising
    [[0.1, 0.3, 0.5, NaN]] gives count 3, minimum 0.1, maximum 0.5 and
    median 0.3. *)
Theorem stats_over_finite_values (x : ndarray) :
  let xs := filter isfinite x in
  Forall (fun v => isfinite v = true) xs
  /\ (Permutation (sort fleb xs) xs
      /\ Sorted (fun a b => fleb a b = true) (sort fleb xs))
  /\ (forall y, filter isfinite y = xs -> stats y = stats x)
  /\ (xs = [] ->
      stats x = [("n", PyInt 0)]
      /\ forall k, k <> "n" -> dict_get (stats x) k = Raise (KeyError k))
  /\ (xs <> [] ->
      keys (stats x)
      = ["n"; "mean"; "median"; "p05"; "p25"; "p75"; "p95"; "min"; "max"]
      /\ dict_get (stats x) "n" = Ok (PyInt (Z.of_nat (List.length xs)))
      /\ dict_get (stats x) "mean" = Ok (PyFloat (np_mean xs))
      /\ dict_get (stats x) "median" = Ok (PyFloat (np_median xs))
      /\ dict_get (stats x) "p05" = Ok (PyFloat (np_percentile xs 5))
      /\ dict_get (stats x) "p25" = Ok (PyFloat (np_percentile xs 25))
      /\ dict_get (stats x) "p75" = Ok (PyFloat (np_percentile xs 75))
      /\ dict_get (stats x) "p95" = Ok (PyFloat (np_percentile xs 95))
      /\ exists lo hi,
          dict_get (stats x) "min" = Ok (PyFloat lo)
          /\ dict_get (stats x) "max" = Ok (PyFloat hi)
          /\ In lo xs /\ Forall (fle lo) xs
          /\ In hi xs /\ Forall (fun v => fle v hi) xs)
  /\ (let s := stats [Fin 0.1; Fin 0.3; Fin 0.5; NaN] in
      dict_get s "n" = Ok (PyInt 3)
      /\ dict_get s "min" = Ok (PyFloat (Fin 0.1))
      /\ dict_get s "max" = Ok (PyFloat (Fin 0.5))
      /\ dict_get s "median" = Ok (PyFloat (Fin 0.3))).
Proof.
  intros xs. pose proof (filter_isfinite_all x) as Hfin. fold xs in Hfin.
  split; [exact Hfin |].
  split; [exact (sort_finite x) |].
  split; [intros y Hy; unfold stats; fold xs; now rewrite Hy |].
  split; [| split; [| exact stats_example]].
  - intros E. unfold stats. fold xs. rewrite E.
    split; [reflexivity |].
    intros k Hk. cbn [dict_get].
    destruct (String.eqb k "n") eqn:Ek; [| reflexivity].
    apply String.eqb_eq in Ek. contradiction.
  - intros NE. unfold stats. fold xs.
    destruct xs as [|x0 rest] eqn:E; [contradiction |].
    destruct (fold_fminimum_least rest x0 Hfin) as [Hlo1 Hlo2].
    destruct (fold_fmaximum_greatest rest x0 Hfin) as [Hhi1 Hhi2].
    repeat (split; [reflexivity |]).
    exists (fold_left fminimum rest x0), (fold_left fmaximum rest x0).
    repeat split; (reflexivity || assumption).
Qed.

(** ** C7: the table of bad faces *)

Lemma list_as_map_nth {A : Type} (l : list A) (d : A) :
  l = map (fun i => nth i l d) (seq 0 (List.length l)).
Proof.
  apply (nth_ext _ _ d (nth 0 l d)).
  - now rewrite length_map, length_seq.
  - intros n Hn.
    rewrite (map_nth (fun i => nth i l d) (seq 0 (List.length l)) 0%nat n).
    now rewrite seq_nth.
Qed.

Lemma filter_map_comm {A B : Type} (f : B -> bool) (g : A -> B) (l : list A) :
  filter f (map g l) = map g (filter (fun a => f (g a)) l).
Proof.
  induction l as [|a l IH]; simpl; [reflexivity |].
  destruct (f (g a)); simpl; congruence.
Qed.

Lemma compress_seq (b : nat -> bool) (S : list nat) :
  compress (map b S) S = filter b S.
Proof.
  rewrite <- (map_id S) at 2. rewrite compress_map. apply map_id.
Qed.

Lemma loc_map_seq (g : nat -> Row) (M : nat) (idx : list nat) :
  Forall (fun i => (i < M)%nat) idx ->
  loc (map g (seq 0 M)) idx = Ok (map g idx).
Proof.
  unfold loc. induction 1 as [|i idx Hi _ IH]; [reflexivity |].
  cbn [mapM map]. rewrite nth_error_map.
  rewrite (nth_error_nth' (seq 0 M) 0%nat) by (now rewrite length_seq).
  rewrite seq_nth by exact Hi. cbn [option_map bind].
  rewrite IH. reflexivity.
Qed.

Lemma DataFrame_Ok (q : QDict) (F : list face) (df : list Row) :
  DataFrame q F = Ok df ->
  df = map (row_at q F) (seq 0 (List.length F))
  /\ List.length (shape_quality q) = List.length F
  /\ List.length (min_angle q) = List.length F.
Proof.
  unfold DataFrame.
  destruct (forallb _ _) eqn:E; [| discriminate].
  intros H; injection H as <-. split; [reflexivity |].
  rewrite forallb_forall in E.
  split; apply Nat.eqb_eq, E; unfold columns; simpl; tauto.
Qed.

(** The mask computed from the arrays is the mask of the rows. *)
Lemma bad_mask_rows (q : QDict) (F : list face) (df : list Row)
      (t_sq t_angle : float64) :
  DataFrame q F = Ok df ->
  bad_mask q t_sq t_angle
  = map (fun i => flagged t_sq t_angle (row_at q F i))
        (seq 0 (List.length F)).
Proof.
  intros H. destruct (DataFrame_Ok _ _ _ H) as (_ & Ls & Lm).
  unfold bad_mask.
  rewrite (list_as_map_nth (shape_quality q) NaN) at 1.
  rewrite (list_as_map_nth (min_angle q) NaN) at 1.
  rewrite Ls, Lm. fuse. reflexivity.
Qed.

Lemma bad_rows (q : QDict) (F : list face) (df : list Row)
      (t_sq t_angle : float64) :
  DataFrame q F = Ok df ->
  loc df (where_true (bad_mask q t_sq t_angle))
  = Ok (filter (flagged t_sq t_angle) df).
Proof.
  intros H. rewrite (bad_mask_rows q F df t_sq t_angle H).
  destruct (DataFrame_Ok _ _ _ H) as (-> & _ & _).
  unfold where_true. rewrite length_map, length_seq, compress_seq.
  rewrite loc_map_seq.
  - now rewrite filter_map_comm.
  - apply Forall_forall. intros i Hi. apply filter_In in Hi as [Hi _].
    apply in_seq in Hi. lia.
Qed.

Lemma bad_count_positive (q : QDict) (F : list face) (df : list Row)
      (t_sq t_angle : float64) (i : nat) :
  DataFrame q F = Ok df ->
  nth_error (bad_mask q t_sq t_angle) i = Some true ->
  Nat.ltb 0 (List.length (where_true (bad_mask q t_sq t_angle))) = true.
Proof.
  intros H Hi. rewrite (bad_mask_rows q F df t_sq t_angle H) in *.
  unfold where_true. rewrite length_map, length_seq, compress_seq.
  assert (Hlt : (i < List.length F)%nat).
  { assert (Hs : nth_error
                   (map (fun i => flagged t_sq t_angle (row_at q F i))
                        (seq 0 (List.length F))) i <> None) by congruence.
    apply nth_error_Some in Hs.
    now rewrite length_map, length_seq in Hs. }
  rewrite nth_error_map in Hi.
  rewrite (nth_error_nth' (seq 0 (List.length F)) 0%nat) in Hi
    by (now rewrite length_seq).
  rewrite seq_nth in Hi by exact Hlt. cbn [option_map] in Hi.
  injection Hi as Hi.
  assert (Hin : In i (filter (fun i => flagged t_sq t_angle (row_at q F i))
                             (seq 0 (List.length F)))).
  { apply filter_In. split; [apply in_seq; lia | exact Hi]. }
  apply Nat.ltb_lt.
  destruct (filter _ _); [contradiction | simpl; lia].
Qed.

Lemma key_order_total (x y : float64) :
  key_ltb x y = true \/ key_eqb x y = true \/ key_ltb y x = true.
Proof.
  destruct x as [| | |a], y as [| | |b]; simpl; auto.
  rcases; auto. lra.
Qed.

Lemma key_eqb_sym (x y : float64) : key_eqb x y = key_eqb y x.
Proof.
  destruct x as [| | |a], y as [| | |b]; simpl; try reflexivity.
  rcases; try reflexivity; congruence.
Qed.

Lemma row_leb_total (r1 r2 : Row) :
  row_leb r1 r2 = true \/ row_leb r2 r1 = true.
Proof.
  unfold row_leb.
  rewrite (key_eqb_sym (row_shape_quality r2)),
          (key_eqb_sym (row_min_angle r2)).
  destruct (key_order_total (row_shape_quality r1) (row_shape_quality r2))
    as [H | [H | H]]; rewrite H; auto.
  destruct (key_order_total (row_min_angle r1) (row_min_angle r2))
    as [H' | [H' | H']]; rewrite H'; rewrite ?orb_true_r; auto.
Qed.

(** On finite keys the order of [sort_values] is the lexicographic order of
    the reals. *)
Lemma row_leb_finite (r1 r2 : Row) (s1 m1 s2 m2 : R) :
  row_shape_quality r1 = Fin s1 -> row_min_angle r1 = Fin m1 ->
  row_shape_quality r2 = Fin s2 -> row_min_angle r2 = Fin m2 ->
  row_leb r1 r2 = true <-> s1 < s2 \/ (s1 = s2 /\ m1 <= m2).
Proof.
  intros E1 E2 E3 E4. unfold row_leb. rewrite E1, E2, E3, E4.
  cbn [key_ltb key_eqb fltb feqb].
  rewrite !orb_true_iff, andb_true_iff, orb_true_iff, !Rltb_iff, !Reqb_iff.
  lra.
Qed.

Lemma summarize_quality_total (q : QDict) :
  exists s, summarize_quality q = Ok s.
Proof. eexists. reflexivity. Qed.

(** C7.  Whenever some face is flagged, [save_mesh_quality] writes the
    bad-faces table last, as [<prefix>_bad_faces.csv]: its rows are exactly
    the flagged rows of the per-face table, sorted ascending by
    [shape_quality] and then by [min_angle]. *)
Theorem bad_faces_table_sorted
        (q : QDict) (F : list face) (out_prefix : string)
        (save_csv save_parquet save_npz save_summary_json : bool)
        (t_sq t_angle : float64) (w : World)
        (df : list Row) (stem : PurePath) (i : nat) :
  DataFrame q F = Ok df ->
  with_suffix_empty (Path out_prefix) = Ok stem ->
  nth_error (bad_mask q t_sq t_angle) i = Some true ->
  exists w' rows earlier,
    save_mesh_quality q F out_prefix save_csv save_parquet save_npz
                      save_summary_json t_sq t_angle w = (w', Done tt)
    /\ files w'
       = earlier ++ [((as_posix stem ++ "_bad_faces.csv")%string, Csv rows)]
    /\ rows = sort_values (filter (flagged t_sq t_angle) df)
    /\ Permutation rows (filter (flagged t_sq t_angle) df)
    /\ (forall r, In r rows <-> In r df /\ flagged t_sq t_angle r = true)
    /\ Sorted (fun r1 r2 => row_leb r1 r2 = true) rows
    /\ (forall r1 r2 s1 m1 s2 m2,
           row_shape_quality r1 = Fin s1 -> row_min_angle r1 = Fin m1 ->
           row_shape_quality r2 = Fin s2 -> row_min_angle r2 = Fin m2 ->
           (row_leb r1 r2 = true <-> s1 < s2 \/ (s1 = s2 /\ m1 <= m2))).
Proof.
  intros Hdf Hstem Hbad.
  pose proof (bad_count_positive q F df t_sq t_angle i Hdf Hbad) as Hpos.
  pose proof (bad_rows q F df t_sq t_angle Hdf) as Hloc.
  destruct (summarize_quality_total q) as [s Hs].
  set (rows := sort_values (filter (flagged t_sq t_angle) df)).
  assert (Hperm : Permutation rows (filter (flagged t_sq t_angle) df))
    by apply sort_perm.
  assert (Hrun : exists w' earlier,
             save_mesh_quality q F out_prefix save_csv save_parquet save_npz
                               save_summary_json t_sq t_angle w
             = (w', Done tt)
             /\ files w'
                = earlier
                  ++ [((as_posix stem ++ "_bad_faces.csv")%string, Csv rows)]).
  { unfold save_mesh_quality, when, iobind, lift, print, write_file, ret.
    rewrite Hdf, Hstem, Hs, Hpos, Hloc. fold rows.
    destruct save_csv, save_parquet, save_npz, save_summary_json;
      cbn [stdout files]; do 2 eexists; (split; [reflexivity |]);
      cbn [files]; reflexivity. }
  destruct Hrun as (w' & earlier & Hw & Hfiles).
  exists w', rows, earlier.
  split; [exact Hw |]. split; [exact Hfiles |]. split; [reflexivity |].
  split; [exact Hperm |]. split; [| split].
  - intros r. split.
    + intros Hr. apply filter_In.
      eapply Permutation_in; [exact Hperm | exact Hr].
    + intros Hr. apply filter_In in Hr.
      eapply Permutation_in; [apply Permutation_sym, Hperm | exact Hr].
  - apply sort_sorted. intros r1 r2 _ _. apply row_leb_total.
  - apply row_leb_finite.
Qed.

Lemma bad_faces_table_sorted_witness :
  exists w' rows earlier,
    save_mesh_quality q_example [(0, 1, 2)%Z] "out/lh_quality"
                      true false true true (Fin 0.2) (Fin 10) empty_world
    = (w', Done tt)
    /\ files w' = earlier ++ [("out/lh_quality_bad_faces.csv", Csv rows)]
    /\ Sorted (fun r1 r2 => row_leb r1 r2 = true) rows.
Proof.
  assert (Hbad : nth_error (bad_mask q_example (Fin 0.2) (Fin 10)) 0
                 = Some true).
  { unfold bad_mask. entry.
    cbn [q_example shape_quality min_angle nth_error option_map fltb].
    rewrite Rltb_true by lra. reflexivity. }
  destruct (bad_faces_table_sorted
              q_example [(0, 1, 2)%Z] "out/lh_quality"
              true false true true (Fin 0.2) (Fin 10) empty_world
              _ _ 0 eq_refl eq_refl Hbad)
    as (w' & rows & earlier & Hw & Hf & _ & _ & _ & Hs & _).
  exists w', rows, earlier. split; [exact Hw | split; [exact Hf | exact Hs]].
Defined.

(** ** C8: the default output prefix *)

Lemma append_assoc (a b c : string) :
  ((a ++ b) ++ c = a ++ (b ++ c))%string.
Proof. induction a as [|x a IH]; simpl; congruence. Qed.

Lemma append_nil_r (a : string) : (a ++ "")%string = a.
Proof. induction a as [|x a IH]; simpl; congruence. Qed.

Lemma substring_whole (s : string) : substring 0 (String.length s) s = s.
Proof. induction s as [|c s IH]; simpl; congruence. Qed.

Lemma substring_split (s : string) (i : nat) :
  (i <= String.length s)%nat ->
  (substring 0 i s ++ substring i (String.length s - i) s)%string = s.
Proof.
  revert i. induction s as [|c s IH]; intros [|i] H; simpl in *;
    try reflexivity; try lia.
  - now rewrite substring_whole.
  - rewrite IH by lia. reflexivity.
Qed.

Lemma length_substring (s : string) (i : nat) :
  (i <= String.length s)%nat ->
  String.length (substring i (String.length s - i) s)
  = (String.length s - i)%nat.
Proof.
  revert i. induction s as [|c s IH]; intros [|i] H; simpl in *;
    try reflexivity; try lia.
  - now rewrite substring_whole.
  - apply IH. lia.
Qed.

(** A name is its stem followed by its suffix. *)
Lemma stem_suffix (nm : string) :
  nm = (stem_of nm ++ suffix_of nm)%string.
Proof.
  unfold stem_of, suffix_of.
  destruct (rfind "." nm) as [i|];
    [destruct (Nat.ltb 0 i && Nat.ltb i (String.length nm - 1)) eqn:E |].
  - apply andb_true_iff in E as [_ E]. apply Nat.ltb_lt in E.
    rewrite length_substring by lia.
    replace (String.length nm - (String.length nm - i))%nat with i by lia.
    symmetry. apply substring_split. lia.
  - cbn [String.length]. rewrite Nat.sub_0_r, substring_whole.
    now rewrite append_nil_r.
  - cbn [String.length]. rewrite Nat.sub_0_r, substring_whole.
    now rewrite append_nil_r.
Qed.

Lemma stem_without_suffix (nm : string) :
  suffix_of nm = "" -> stem_of nm = nm.
Proof.
  intros H. unfold stem_of. rewrite H. cbn [String.length].
  rewrite Nat.sub_0_r. apply substring_whole.
Qed.

Lemma join_last (l : list string) (x : string) :
  join "/" (l ++ [x])
  = match l with
    | [] => x
    | _ => (join "/" l ++ "/" ++ x)%string
    end.
Proof.
  induction l as [|a l IH]; [reflexivity |].
  destruct l as [|b l]; [reflexivity |].
  change (join "/" ((a :: b :: l) ++ [x]))
    with (a ++ "/" ++ join "/" ((b :: l) ++ [x]))%string.
  rewrite IH.
  change (join "/" (a :: b :: l)) with (a ++ "/" ++ join "/" (b :: l))%string.
  now rewrite !append_assoc.
Qed.

Lemma as_posix_nonempty (r : string) (ps : list string) :
  ps <> [] -> as_posix (mkPath r ps) = (r ++ join "/" ps)%string.
Proof.
  intros H. unfold as_posix. cbn [root parts].
  destruct r, ps; (reflexivity || contradiction).
Qed.

Lemma as_posix_last (r : string) (parents : list string) (x : string) :
  as_posix (mkPath r (parents ++ [x])) = (dir_text r parents ++ x)%string.
Proof.
  rewrite as_posix_nonempty by (destruct parents; discriminate).
  unfold dir_text. rewrite join_last.
  destruct parents as [|a l]; [reflexivity |].
  now rewrite !append_assoc.
Qed.

Lemma parts_last (p : PurePath) :
  name p <> "" -> parts p = removelast (parts p) ++ [name p].
Proof.
  intros H. unfold name in *. apply app_removelast_last.
  intros E. rewrite E in H. now apply H.
Qed.

Lemma string_length_append (a b : string) :
  String.length (a ++ b) = (String.length a + String.length b)%nat.
Proof. induction a as [|x a IH]; simpl; congruence. Qed.

(** The default prefix: the directory of the input, the stem of its name,
    then ["_quality"]. *)
Lemma default_output_value (input_surf : string) :
  let p := Path input_surf in
  let dir := dir_text (root p) (removelast (parts p)) in
  name p <> "" ->
  as_posix p = (dir ++ name p)%string
  /\ default_output input_surf
     = Ok (dir ++ stem_of (name p) ++ "_quality")%string.
Proof.
  intros p dir Hname.
  assert (Hposix : as_posix p = (dir ++ name p)%string).
  { destruct p as [r ps] eqn:Ep. cbn [root parts] in *.
    rewrite (parts_last (mkPath r ps) Hname) at 1. cbn [parts].
    apply as_posix_last. }
  assert (Hws : with_suffix_empty p
                = Ok (mkPath (root p)
                             (removelast (parts p) ++ [stem_of (name p)]))).
  { unfold with_suffix_empty.
    rewrite (proj2 (String.eqb_neq (name p) "") Hname). reflexivity. }
  split; [exact Hposix |].
  unfold default_output. fold p. rewrite Hws. cbn [bind].
  rewrite as_posix_last. fold dir. now rewrite append_assoc.
Qed.

(** The default is the input path followed by ["_quality"] only for a file
    name without an extension. *)
Lemma default_output_keeps_name_iff (input_surf : string) :
  let p := Path input_surf in
  name p <> "" ->
  default_output input_surf = Ok (as_posix p ++ "_quality")%string
  <-> suffix_of (name p) = "".
Proof.
  intros p Hname.
  destruct (default_output_value input_surf Hname) as [Hposix Hout].
  fold p in Hposix, Hout. rewrite Hout, Hposix.
  set (dir := dir_text (root p) (removelast (parts p))).
  split.
  - intros H. injection H as H.
    apply (f_equal String.length) in H.
    assert (L : String.length (name p)
                = (String.length (stem_of (name p))
                   + String.length (suffix_of (name p)))%nat)
      by (rewrite <- string_length_append, <- stem_suffix; reflexivity).
    rewrite !string_length_append, L in H.
    destruct (suffix_of (name p)) as [|c s]; [reflexivity |].
    cbn [String.length] in H. lia.
  - intros Hs. rewrite (stem_without_suffix _ Hs).
    now rewrite append_assoc.
Qed.

(** C8.  The default output prefix is not the input file name followed by
    ["_quality"], as the option's help text documents it, whenever the name
    has an extension (a last dot that is neither its first nor its last
    character): [with_suffix("")] removes the extension first.  The prefix
    is the directory, the stem of the name, then ["_quality"]; inputs of one
    directory whose names share the stem, as the surfaces [lh.white] and
    [lh.pial] of one hemisphere do, get the same prefix. *)
Theorem default_output_loses_extension (input_surf : string) :
  let p := Path input_surf in
  let dir := dir_text (root p) (removelast (parts p)) in
  name p <> "" ->
  suffix_of (name p) <> "" ->
  as_posix p = (dir ++ stem_of (name p) ++ suffix_of (name p))%string
  /\ default_output input_surf
     = Ok (dir ++ stem_of (name p) ++ "_quality")%string
  /\ default_output input_surf <> Ok (as_posix p ++ "_quality")%string
  /\ (forall other : string,
        name (Path other) <> "" ->
        dir_text (root (Path other)) (removelast (parts (Path other))) = dir ->
        stem_of (name (Path other)) = stem_of (name p) ->
        default_output other = default_output input_surf).
Proof.
  intros p dir Hname Hsuffix.
  destruct (default_output_value input_surf Hname) as [Hposix Hout].
  fold p in Hposix, Hout. fold dir in Hposix, Hout.
  split; [rewrite Hposix, <- stem_suffix; reflexivity |].
  split; [exact Hout |]. split.
  - intros H. apply Hsuffix.
    apply (default_output_keeps_name_iff input_surf Hname). exact H.
  - intros other Hn Hd Hs.
    destruct (default_output_value other Hn) as [_ Ho].
    rewrite Ho, Hout, Hd, Hs. reflexivity.
Qed.

Lemma default_output_loses_extension_witness :
  default_output "/data/surf/lh.white" = Ok "/data/surf/lh_quality"
  /\ default_output "/data/surf/lh.white"
     <> Ok "/data/surf/lh.white_quality"
  /\ default_output "/data/surf/lh.pial"
     = default_output "/data/surf/lh.white".
Proof.
  assert (Hn : name (Path "/data/surf/lh.white") <> "")
    by (vm_compute; discriminate).
  assert (Hs : suffix_of (name (Path "/data/surf/lh.white")) <> "")
    by (vm_compute; discriminate).
  destruct (default_output_loses_extension "/data/surf/lh.white" Hn Hs)
    as (_ & Hout & Hne & Hsame).
  split; [exact Hout |]. split; [exact Hne |].
  apply Hsame; [vm_compute; discriminate | reflexivity | reflexivity].
Defined.

(** ** C9: exit status of [main] *)

Section Main_facts.
Variable isfile : string -> bool.
Variable read_geometry : string -> result (list vec3 * list face).

(** The parser accepts a command line without [-i]: the namespace then
    holds [None]. *)
Lemma parse_arguments_without_input :
  input_surf (parse_arguments []) = None.
Proof. reflexivity. Qed.

(** Without [-i], [os.path.isfile(None)] raises TypeError: the run ends in
    a traceback, status 1, and prints no message of its own. *)
Lemma main_without_input (argv : list cli_arg) :
  input_surf (parse_arguments argv) = None ->
  run isfile read_geometry argv = (empty_world, Abort (Exception TypeError))
  /\ exit_code (run isfile read_geometry argv) = 1%Z.
Proof.
  intros H. unfold run, main, exit_code. rewrite H.
  unfold iobind, lift, os_path_isfile. auto.
Qed.

(** X1.  A path that is not a file: the run prints the not-found message and
    nothing else, writes no file and ends in [sys.exit(1)], status 1. *)
Lemma main_input_not_found (argv : list cli_arg) (input : string) :
  input_surf (parse_arguments argv) = Some input ->
  isfile input = false ->
  run isfile read_geometry argv
  = (mkWorld [MsgInputNotFound input] [], Abort (SystemExit 1))
  /\ exit_code (run isfile read_geometry argv) = 1%Z.
Proof.
  intros H Hf. unfold run, main, exit_code. rewrite H.
  unfold iobind, lift, os_path_isfile, when, print, sys_exit. rewrite Hf.
  cbn. auto.
Qed.

(** X2.  A file that the reader rejects, whatever the exception: the run
    prints the start banner, the reading line and the failure message, writes
    no file and ends in [sys.exit(1)], status 1. *)
Lemma main_read_failure (argv : list cli_arg) (input out : string) (e : exn) :
  input_surf (parse_arguments argv) = Some input ->
  isfile input = true ->
  match output (parse_arguments argv) with
  | Some o => Ok o
  | None => default_output input
  end = Ok out ->
  read_geometry input = Raise e ->
  run isfile read_geometry argv
  = (mkWorld [MsgStart; MsgReading input; MsgReadFailed e] [],
     Abort (SystemExit 1))
  /\ exit_code (run isfile read_geometry argv) = 1%Z.
Proof.
  intros H Hf Ho Hr. unfold run, main, exit_code. rewrite H.
  unfold iobind, lift, os_path_isfile, when, print, sys_exit, try_except,
         read_freesurfer_surf, ret.
  rewrite Hf, Hr.
  destruct (output (parse_arguments argv)) as [o|].
  - injection Ho as ->. cbn. auto.
  - rewrite Ho. cbn. auto.
Qed.

(** A file that parses to a mesh without faces: every summary record is
    [{"n": 0}], the lookup of ["median"] raises KeyError, and the run ends
    in a traceback with status 1. *)
Lemma main_mesh_without_faces (argv : list cli_arg) (input out : string)
      (V : list vec3) :
  input_surf (parse_arguments argv) = Some input ->
  isfile input = true ->
  match output (parse_arguments argv) with
  | Some o => Ok o
  | None => default_output input
  end = Ok out ->
  read_geometry input = Ok (V, []) ->
  run isfile read_geometry argv
  = (mkWorld [MsgStart; MsgReading input; MsgCounts (List.length V) 0;
              MsgComputing; MsgSummaryHeader] [],
     Abort (Exception (KeyError "median")))
  /\ exit_code (run isfile read_geometry argv) = 1%Z.
Proof.
  intros H Hf Ho Hr. unfold run, main, exit_code. rewrite H.
  unfold iobind, lift, os_path_isfile, when, print, sys_exit, try_except,
         read_freesurfer_surf, ret.
  rewrite Hf, Hr.
  destruct (output (parse_arguments argv)) as [o|].
  - injection Ho as ->. cbn. auto.
  - rewrite Ho. cbn. auto.
Qed.
End Main_facts.

(** C9, at the failing input.  The file exists and parses, yet the run ends
    with status 1: a surface with three vertices and no face. *)
Theorem main_exit_status_on_mesh_without_faces :
  let r := run every_path_is_a_file read_mesh_without_faces
               [opt_input_surf "/data/surf/lh.white"] in
  snd r = Abort (Exception (KeyError "median"))
  /\ exit_code r = 1%Z
  /\ stdout (fst r)
     = [MsgStart; MsgReading "/data/surf/lh.white"; MsgCounts 3 0;
        MsgComputing; MsgSummaryHeader]
  /\ files (fst r) = [].
Proof.
  intros r.
  destruct (main_mesh_without_faces
              every_path_is_a_file read_mesh_without_faces
              [opt_input_surf "/data/surf/lh.white"]
              "/data/surf/lh.white" "/data/surf/lh_quality"
              (vertices mesh_P) eq_refl eq_refl eq_refl eq_refl)
    as [Hrun Hcode].
  subst r. rewrite Hcode, Hrun. repeat split.
Qed.

(** ** The summary and the table of a quality record *)

Lemma summarize_quality_value (q : QDict) :
  summarize_quality q
  = Ok [("shape_quality", stats (shape_quality q));
        ("radius_ratio", stats (radius_ratio q));
        ("aspect_proxy", stats (aspect_proxy q));
        ("min_angle", stats (min_angle q));
        ("max_angle", stats (max_angle q));
        ("area", stats (area q));
        ("min_edge", stats (min_edge q));
        ("max_edge", stats (max_edge q))].
Proof. reflexivity. Qed.

Lemma DataFrame_quality_record (T : list triangle) (F : list face) :
  List.length T = List.length F ->
  exists df, DataFrame (quality_record T) F = Ok df.
Proof.
  intros H. unfold DataFrame, columns, quality_record.
  cbn [area edge_a edge_b edge_c min_edge max_edge angle_A angle_B angle_C
       min_angle max_angle shape_quality radius_ratio aspect_proxy forallb].
  rewrite !length_map, H, Nat.eqb_refl. cbn [andb]. eauto.
Qed.

(** A write is modelled as going through ([write_file] never raises), so
    with a table and a named prefix the modelled writer returns.  In the
    program a write can fail (no parquet engine, a directory that cannot be
    created or written): the statements of Part III about the files
    written are therefore about a call that returns. *)
Lemma save_mesh_quality_returns_in_model
      (q : QDict) (F : list face) (out_prefix : string)
      (save_csv save_parquet save_npz save_summary_json : bool)
      (t_sq t_angle : float64) (df : list Row) (stem : PurePath) (w : World) :
  DataFrame q F = Ok df ->
  with_suffix_empty (Path out_prefix) = Ok stem ->
  exists w',
    save_mesh_quality q F out_prefix save_csv save_parquet save_npz
                      save_summary_json t_sq t_angle w = (w', Done tt).
Proof.
  intros Hdf Hstem.
  pose proof (bad_rows q F df t_sq t_angle Hdf) as Hloc.
  unfold save_mesh_quality, when, iobind, lift, print, write_file, ret.
  rewrite Hdf, Hstem, summarize_quality_value, Hloc.
  destruct save_csv, save_parquet, save_npz, save_summary_json;
    destruct (Nat.ltb 0 _); eexists; reflexivity.
Qed.

(* ================================================================== *)
(** * Part III.  Further properties of the code                        *)
(* ================================================================== *)

(** ** Inradius ([triangle_inradius]) *)



(** ** Face indices ([triangle_edges], [compute_mesh_quality]) *)

Lemma index_row_in_range {A : Type} (V : list A) (i : Z) :
  in_range (List.length V) i = true -> exists v, index_row V i = Ok v.
Proof.
  unfold in_range, index_row. intros H.
  apply andb_true_iff in H as [H0 H1].
  apply Z.leb_le in H0. apply Z.ltb_lt in H1.
  set (n := Z.of_nat (List.length V)) in *.
  destruct (i <? 0)%Z eqn:Hneg.
  - apply Z.ltb_lt in Hneg.
    rewrite (proj2 (Z.leb_le 0 (i + n)) ltac:(lia)),
            (proj2 (Z.ltb_lt (i + n) n) ltac:(lia)). simpl.
    destruct (nth_error V (Z.to_nat (i + n))) eqn:E; [eauto |].
    apply nth_error_None in E. lia.
  - apply Z.ltb_ge in Hneg.
    rewrite (proj2 (Z.leb_le 0 i) Hneg), (proj2 (Z.ltb_lt i n) H1). simpl.
    destruct (nth_error V (Z.to_nat i)) eqn:E; [eauto |].
    apply nth_error_None in E. lia.
Qed.

Lemma index_row_out_of_range {A : Type} (V : list A) (i : Z) :
  in_range (List.length V) i = false -> index_row V i = Raise IndexError.
Proof.
  unfold in_range, index_row. intros H.
  set (n := Z.of_nat (List.length V)) in *.
  apply andb_false_iff in H.
  destruct (i <? 0)%Z eqn:Hneg.
  - apply Z.ltb_lt in Hneg.
    destruct H as [H | H]; [apply Z.leb_gt in H | apply Z.ltb_ge in H; lia].
    rewrite (proj2 (Z.leb_gt 0 (i + n)) ltac:(lia)). reflexivity.
  - apply Z.ltb_ge in Hneg.
    destruct H as [H | H]; [apply Z.leb_gt in H; lia | apply Z.ltb_ge in H].
    rewrite (proj2 (Z.ltb_ge i n) H), andb_false_r. reflexivity.
Qed.

Lemma gather_in_range (V : list vec3) (F : list face) :
  faces_in_range (List.length V) F = true -> exists T, gather V F = Ok T.
Proof.
  unfold gather. induction F as [|[[i j] k] F IH]; simpl; intros H.
  - eauto.
  - apply andb_true_iff in H as [H HF].
    apply andb_true_iff in H as [H Hk].
    apply andb_true_iff in H as [Hi Hj].
    destruct (index_row_in_range V i Hi) as [p0 ->].
    destruct (index_row_in_range V j Hj) as [p1 ->].
    destruct (index_row_in_range V k Hk) as [p2 ->].
    destruct (IH HF) as [T ->]. simpl. eauto.
Qed.

Lemma gather_out_of_range (V : list vec3) (F : list face) :
  faces_in_range (List.length V) F = false ->
  forall T, gather V F <> Ok T.
Proof.
  unfold gather. induction F as [|[[i j] k] F IH]; intros H T G.
  - discriminate.
  - apply mapM_cons_Ok in G as (t & T' & Et & M & ->).
    destruct (in_range (List.length V) i) eqn:Hi;
      [| rewrite (index_row_out_of_range V i Hi) in Et; discriminate].
    destruct (in_range (List.length V) j) eqn:Hj;
      [| rewrite (index_row_out_of_range V j Hj) in Et;
         destruct (index_row V i); discriminate].
    destruct (in_range (List.length V) k) eqn:Hk;
      [| rewrite (index_row_out_of_range V k Hk) in Et;
         destruct (index_row V i), (index_row V j); discriminate].
    cbn [faces_in_range forallb] in H. rewrite Hi, Hj, Hk in H.
    exact (IH H T' M).
Qed.

Lemma mapM_error {A B : Type} (f : A -> result B) (xs : list A) (e : exn) :
  mapM f xs = Raise e -> exists x, In x xs /\ f x = Raise e.
Proof.
  induction xs as [|x xs IH]; simpl; [discriminate |].
  destruct (f x) as [y|e'] eqn:E; simpl.
  - destruct (mapM f xs) as [ys|e'']; simpl; [discriminate |].
    intros H; injection H as ->. destruct (IH eq_refl) as (x' & Hx & Hf).
    eauto.
  - intros H; injection H as ->. eauto.
Qed.

Lemma triangle_edges_error (V : list vec3) (F : list face) (e : exn) :
  triangle_edges V F = Raise e -> e = IndexError.
Proof.
  unfold triangle_edges, take. intros H.
  destruct (mapM (index_row V) (col0 F)) as [c0|e0] eqn:H0.
  - destruct (mapM (index_row V) (col1 F)) as [c1|e1] eqn:H1.
    + destruct (mapM (index_row V) (col2 F)) as [c2|e2'] eqn:H2;
        [discriminate |].
      cbn [bind] in H. injection H as <-.
      apply mapM_error in H2 as (x & _ & Hx).
      eapply index_row_error; eassumption.
    + cbn [bind] in H. injection H as <-.
      apply mapM_error in H1 as (x & _ & Hx).
      eapply index_row_error; eassumption.
  - cbn [bind] in H. injection H as <-.
    apply mapM_error in H0 as (x & _ & Hx).
    eapply index_row_error; eassumption.
Qed.

(** X5.  [compute_mesh_quality] returns a result exactly when every face index
    lies in [[-N, N)] for the [N] vertices (a negative index counts from the
    end, as NumPy reads it); any index outside raises IndexError, and no other
    exception is possible. *)
Theorem compute_mesh_quality_index_range (V : list vec3) (F : list face) :
  (faces_in_range (List.length V) F = true ->
   exists q, compute_mesh_quality V F = Ok q)
  /\ (faces_in_range (List.length V) F = false ->
      compute_mesh_quality V F = Raise IndexError)
  /\ (forall e, compute_mesh_quality V F = Raise e -> e = IndexError).
Proof.
  assert (Herr : forall e, compute_mesh_quality V F = Raise e
                           -> e = IndexError).
  { intros e H. unfold compute_mesh_quality in H.
    destruct (triangle_edges V F) as [E|e'] eqn:HE.
    - destruct (triangle_edges_Ok V F E HE) as (T & G & _).
      rewrite <- HE in H. fold (compute_mesh_quality V F) in H.
      unfold compute_mesh_quality in H. rewrite HE in H. cbn [bind] in H.
      destruct (triangle_angles _ _ _) as [[A B] C]. discriminate.
    - cbn [bind] in H. injection H as <-.
      eapply triangle_edges_error; eassumption. }
  split; [| split; [| exact Herr]].
  - intros H. destruct (gather_in_range V F H) as [T G].
    exists (quality_record T). apply compute_mesh_quality_view, G.
  - intros H. destruct (compute_mesh_quality V F) as [q|e] eqn:Hq.
    + destruct (compute_mesh_quality_Ok V F q Hq) as (T & G & _).
      exfalso. exact (gather_out_of_range V F H T G).
    + f_equal. apply Herr. reflexivity.
Qed.

(** ** One entry per face *)

Lemma columns_quality_record (T : list triangle) :
  Forall (fun col : ndarray => List.length col = List.length T)
         (columns (quality_record T)).
Proof.
  unfold columns, quality_record.
  cbn [area edge_a edge_b edge_c min_edge max_edge angle_A angle_B angle_C
       min_angle max_angle shape_quality radius_ratio aspect_proxy].
  repeat constructor; apply length_map.
Qed.

(** X6.  Every array of the dictionary returned by [compute_mesh_quality] has
    exactly one entry per face, so the per-face table can always be built from
    it (pandas raises no ValueError): it has one row per face, with face ids
    0, 1, ..., M-1 in order. *)
Theorem compute_mesh_quality_one_entry_per_face
        (V : list vec3) (F : list face) (q : QDict) :
  compute_mesh_quality V F = Ok q ->
  Forall (fun col : ndarray => List.length col = List.length F) (columns q)
  /\ exists df,
      DataFrame q F = Ok df
      /\ List.length df = List.length F
      /\ map face_id df = map Z.of_nat (seq 0 (List.length F)).
Proof.
  intros Hq.
  destruct (compute_mesh_quality_Ok V F q Hq) as (T & G & ->).
  pose proof (gather_length V F T G) as HL.
  split.
  - rewrite <- HL. apply columns_quality_record.
  - destruct (DataFrame_quality_record T F HL) as [df Hdf].
    exists df. split; [exact Hdf |].
    destruct (DataFrame_Ok _ _ _ Hdf) as (-> & _ & _).
    split; [now rewrite length_map, length_seq |].
    rewrite map_map. reflexivity.
Qed.

Lemma compute_mesh_quality_one_entry_per_face_witness :
  exists q df,
    compute_mesh_quality (vertices mesh_P) mesh_F = Ok q
    /\ DataFrame q mesh_F = Ok df
    /\ List.length df = 2%nat.
Proof.
  assert (G : gather (vertices mesh_P) mesh_F
              = Ok [(embed (0, 0, 0), embed (1, 0, 0), embed (0, 1, 0));
                    (embed (1, 0, 0), embed (1, 0, 0), embed (1, 0, 0))])
    by reflexivity.
  pose proof (compute_mesh_quality_view _ _ _ G) as Hq.
  destruct (compute_mesh_quality_one_entry_per_face _ _ _ Hq)
    as (_ & df & Hdf & Hlen & _).
  eexists; exists df. split; [exact Hq | split; [exact Hdf | exact Hlen]].
Defined.

(** ** The number of bad faces *)

Lemma length_compress_seq (m : list bool) (start : nat) :
  List.length (compress m (seq start (List.length m)))
  = List.length (filter (fun b : bool => b) m).
Proof.
  revert start. induction m as [|b m IH]; intros start; [reflexivity |].
  cbn [List.length seq compress filter].
  destruct b; cbn [List.length]; rewrite IH; reflexivity.
Qed.

Lemma where_true_rows (q : QDict) (F : list face) (df : list Row)
      (t_sq t_angle : float64) :
  DataFrame q F = Ok df ->
  List.length (where_true (bad_mask q t_sq t_angle))
  = List.length (filter (flagged t_sq t_angle) df).
Proof.
  intros H. rewrite (bad_mask_rows q F df t_sq t_angle H).
  destruct (DataFrame_Ok _ _ _ H) as (-> & _ & _).
  unfold where_true. rewrite length_map, length_seq, compress_seq.
  now rewrite filter_map_comm, length_map.
Qed.

(** X7.  The count that [main] prints ([np.sum(bad_mask)]), the count that
    [save_mesh_quality] prints ([bad_idx.size]) and the number of rows of the
    bad-faces table are one number, at most the number of faces. *)
Theorem bad_counts_agree (q : QDict) (F : list face) (df : list Row)
        (t_sq t_angle : float64) :
  DataFrame q F = Ok df ->
  count_true (bad_mask q t_sq t_angle)
  = List.length (where_true (bad_mask q t_sq t_angle))
  /\ count_true (bad_mask q t_sq t_angle)
     = List.length (sort_values (filter (flagged t_sq t_angle) df))
  /\ (count_true (bad_mask q t_sq t_angle) <= List.length F)%nat.
Proof.
  intros H.
  assert (E1 : count_true (bad_mask q t_sq t_angle)
               = List.length (where_true (bad_mask q t_sq t_angle))).
  { unfold count_true, where_true. symmetry. apply length_compress_seq. }
  pose proof (where_true_rows q F df t_sq t_angle H) as E2.
  split; [exact E1 |]. split.
  - rewrite E1, E2. symmetry. apply Permutation_length, sort_perm.
  - rewrite E1, E2.
    destruct (DataFrame_Ok _ _ _ H) as (Hdf & _ & _).
    assert (L : List.length df = List.length F)
      by (rewrite Hdf; now rewrite length_map, length_seq).
    rewrite <- L. apply filter_length_le.
Qed.

Lemma bad_counts_agree_witness :
  exists df,
    DataFrame q_example [(0, 1, 2)%Z] = Ok df
    /\ count_true (bad_mask q_example (Fin 0.2) (Fin 10))
       = List.length (sort_values (filter (flagged (Fin 0.2) (Fin 10)) df)).
Proof.
  eexists. split; [reflexivity |].
  destruct (bad_counts_agree q_example [(0, 1, 2)%Z] _ (Fin 0.2) (Fin 10)
                             eq_refl) as (_ & H & _).
  exact H.
Defined.

(** ** What [save_mesh_quality] writes *)

(** X8.  Whenever a call of [save_mesh_quality] returns (every write it
    attempted went through), the files it has added are exactly these, in
    this order: [_faces.csv], [_faces.parquet], [_faces.npz] and
    [_summary.json], each only when its flag is set, then [_bad_faces.csv]
    only when some row is flagged.  Every name is the prefix without the
    last extension of its file name; when no row is flagged the last line
    printed says so. *)
Theorem save_mesh_quality_outputs
        (q : QDict) (F : list face) (out_prefix : string)
        (save_csv save_parquet save_npz save_summary_json : bool)
        (t_sq t_angle : float64) (w w' : World)
        (df : list Row) (stem : PurePath) :
  DataFrame q F = Ok df ->
  with_suffix_empty (Path out_prefix) = Ok stem ->
  save_mesh_quality q F out_prefix save_csv save_parquet save_npz
                    save_summary_json t_sq t_angle w = (w', Done tt) ->
  let base := as_posix stem in
  let bad := filter (flagged t_sq t_angle) df in
  exists summary printed,
    summarize_quality q = Ok summary
    /\ files w'
       = files w
         ++ (if save_csv
             then [((base ++ "_faces.csv")%string, Csv df)] else [])
         ++ (if save_parquet
             then [((base ++ "_faces.parquet")%string, Parquet df)] else [])
         ++ (if save_npz
             then [((base ++ "_faces.npz")%string,
                    Npz (map Z.of_nat (seq 0 (List.length F))) F q)]
             else [])
         ++ (if save_summary_json
             then [((base ++ "_summary.json")%string, Json summary)] else [])
         ++ (match bad with
             | [] => []
             | _ => [((base ++ "_bad_faces.csv")%string,
                      Csv (sort_values bad))]
             end)
    /\ stdout w' = stdout w ++ printed
    /\ (bad = [] -> last printed MsgStart = MsgNoBadFaces).
Proof.
  intros Hdf Hstem Hrun base bad.
  pose proof (bad_rows q F df t_sq t_angle Hdf) as Hloc.
  pose proof (where_true_rows q F df t_sq t_angle Hdf) as Hlen.
  fold bad in Hloc, Hlen.
  apply (f_equal fst) in Hrun. cbn [fst] in Hrun. subst w'.
  eexists.
  unfold save_mesh_quality, when, iobind, lift, print, write_file, ret.
  rewrite Hdf, Hstem, summarize_quality_value, Hloc, Hlen. fold base.
  destruct save_csv, save_parquet, save_npz, save_summary_json;
    destruct bad as [|r0 bad'];
    cbn [List.length Nat.ltb Nat.leb fst stdout files];
    eexists; (split; [reflexivity |]);
    (split; [rewrite <- ?app_assoc; cbn [app]; rewrite ?app_nil_r;
             reflexivity |]);
    (split; [rewrite <- ?app_assoc; cbn [app]; reflexivity |]);
    (intros Hb; (discriminate Hb || reflexivity)).
Qed.

Lemma save_mesh_quality_outputs_witness :
  exists w' summary,
    summarize_quality q_example = Ok summary
    /\ save_mesh_quality q_example [(0, 1, 2)%Z] "out/lh.v2"
                         false false false true (Fin 0.2) (Fin 10) empty_world
       = (w', Done tt)
    /\ exists rest,
        files w' = ("out/lh_summary.json", Json summary) :: rest.
Proof.
  destruct (save_mesh_quality_returns_in_model
              q_example [(0, 1, 2)%Z] "out/lh.v2"
              false false false true (Fin 0.2) (Fin 10) _ _ empty_world
              eq_refl eq_refl)
    as [w' Hrun].
  destruct (save_mesh_quality_outputs
              q_example [(0, 1, 2)%Z] "out/lh.v2"
              false false false true (Fin 0.2) (Fin 10) empty_world w'
              _ _ eq_refl eq_refl Hrun)
    as (summary & printed & Hs & Hfiles & _).
  exists w', summary. split; [exact Hs |]. split; [exact Hrun |].
  eexists. rewrite Hfiles. reflexivity.
Defined.

(** X9.  A prefix without a file name (["/"], ["."], the empty string): as
    soon as anything is to be written, [with_suffix] raises ValueError, before
    any file is written or any line printed; only when every format is off and
    no row is flagged does the call return. *)
Theorem save_mesh_quality_nameless_prefix
        (q : QDict) (F : list face) (out_prefix : string)
        (save_csv save_parquet save_npz save_summary_json : bool)
        (t_sq t_angle : float64) (w : World) (df : list Row) :
  DataFrame q F = Ok df ->
  name (Path out_prefix) = "" ->
  let nothing_to_write :=
    negb save_csv && negb save_parquet && negb save_npz
    && negb save_summary_json
    && match filter (flagged t_sq t_angle) df with
       | [] => true
       | _ => false
       end in
  save_mesh_quality q F out_prefix save_csv save_parquet save_npz
                    save_summary_json t_sq t_angle w
  = if nothing_to_write
    then (mkWorld (stdout w ++ [MsgNoBadFaces]) (files w), Done tt)
    else (w, Abort (Exception ValueError)).
Proof.
  intros Hdf Hname nothing.
  pose proof (bad_rows q F df t_sq t_angle Hdf) as Hloc.
  pose proof (where_true_rows q F df t_sq t_angle Hdf) as Hlen.
  assert (Hstem : with_suffix_empty (Path out_prefix) = Raise ValueError).
  { unfold with_suffix_empty. rewrite Hname. reflexivity. }
  subst nothing.
  unfold save_mesh_quality, when, iobind, lift, print, write_file, ret.
  rewrite Hdf, Hstem, summarize_quality_value, Hloc, Hlen.
  destruct save_csv, save_parquet, save_npz, save_summary_json;
    destruct (filter (flagged t_sq t_angle) df);
    cbn [negb andb List.length Nat.ltb Nat.leb]; reflexivity.
Qed.

Lemma save_mesh_quality_nameless_prefix_witness :
  name (Path "/") = ""
  /\ save_mesh_quality q_example [(0, 1, 2)%Z] "/"
                       true false true true (Fin 0.2) (Fin 10) empty_world
     = (empty_world, Abort (Exception ValueError)).
Proof.
  split; [reflexivity |].
  exact (save_mesh_quality_nameless_prefix
           q_example [(0, 1, 2)%Z] "/" true false true true
           (Fin 0.2) (Fin 10) empty_world _ eq_refl eq_refl).
Defined.

(** ** Runs that write no file *)

Lemma keeps_ret {A : Type} (a : A) : keeps_files (ret a).
Proof. intros w. reflexivity. Qed.

Lemma keeps_lift {A : Type} (r : result A) : keeps_files (lift r).
Proof. intros w. unfold lift. destruct r; reflexivity. Qed.

Lemma keeps_print (m : message) : keeps_files (print m).
Proof. intros w. reflexivity. Qed.

Lemma keeps_sys_exit {A : Type} (code : Z) : keeps_files (@sys_exit A code).
Proof. intros w. reflexivity. Qed.

Lemma keeps_bind {A B : Type} (m : IO A) (k : A -> IO B) :
  keeps_files m -> (forall a, keeps_files (k a)) -> keeps_files (iobind m k).
Proof.
  intros Hm Hk w. unfold iobind. specialize (Hm w).
  destruct (m w) as [w' [a | s]]; cbn [fst] in *; [| exact Hm].
  rewrite Hk. exact Hm.
Qed.

Lemma keeps_try {A : Type} (body : IO A) (handler : exn -> IO A) :
  keeps_files body -> (forall e, keeps_files (handler e)) ->
  keeps_files (try_except body handler).
Proof.
  intros Hb Hh w. unfold try_except. specialize (Hb w).
  destruct (body w) as [w' [a | [e | code]]]; cbn [fst] in *;
    try exact Hb.
  rewrite Hh. exact Hb.
Qed.

Lemma keeps_when (b : bool) (m : IO unit) :
  keeps_files m -> keeps_files (when b m).
Proof. intros H. destruct b; [exact H | apply keeps_ret]. Qed.

Ltac keeps :=
  repeat first
    [ apply keeps_ret | apply keeps_lift | apply keeps_print
    | apply keeps_sys_exit
    | apply keeps_when
    | apply keeps_try; [| intros ?]
    | apply keeps_bind; [| intros ?]
    | match goal with
      | |- keeps_files (match ?x with _ => _ end) => destruct x
      end ].

Section Main_summary_only.
Variable isfile : string -> bool.
Variable read_geometry : string -> result (list vec3 * list face).

(** X10.  With [--summary-only] no file is ever written, whatever the file
    system and the reader do and however the run ends. *)
Theorem main_summary_only_writes_nothing (argv : list cli_arg) (w : World) :
  summary_only (parse_arguments argv) = true ->
  files (fst (main isfile read_geometry argv w)) = files w.
Proof.
  intros Hs. revert w. change (keeps_files (main isfile read_geometry argv)).
  unfold main. rewrite Hs. keeps.
Qed.
End Main_summary_only.

Lemma main_summary_only_writes_nothing_witness :
  summary_only (parse_arguments [opt_input_surf "/data/surf/lh.white";
                                 flag_summary_only]) = true
  /\ files (fst (run every_path_is_a_file read_mesh_example
                     [opt_input_surf "/data/surf/lh.white";
                      flag_summary_only])) = [].
Proof.
  split; [reflexivity |].
  exact (main_summary_only_writes_nothing
           every_path_is_a_file read_mesh_example
           [opt_input_surf "/data/surf/lh.white"; flag_summary_only]
           empty_world eq_refl).
Defined.

(** ** Exit status of the documented paths *)

Lemma main_input_not_found_witness :
  no_path_is_a_file "/data/surf/lh.white" = false
  /\ exit_code (run no_path_is_a_file read_mesh_example
                    [opt_input_surf "/data/surf/lh.white"]) = 1%Z.
Proof.
  split; [reflexivity |].
  exact (proj2 (main_input_not_found
                  no_path_is_a_file read_mesh_example
                  [opt_input_surf "/data/surf/lh.white"]
                  "/data/surf/lh.white" eq_refl eq_refl)).
Defined.

Lemma main_read_failure_witness :
  read_rejects "/data/surf/lh.white"
  = Raise (ReadFailure "not a surface file")
  /\ exit_code (run every_path_is_a_file read_rejects
                    [opt_input_surf "/data/surf/lh.white"]) = 1%Z.
Proof.
  split; [reflexivity |].
  exact (proj2 (main_read_failure
                  every_path_is_a_file read_rejects
                  [opt_input_surf "/data/surf/lh.white"]
                  "/data/surf/lh.white" "/data/surf/lh_quality"
                  (ReadFailure "not a surface file")
                  eq_refl eq_refl eq_refl eq_refl)).
Defined.

(** ** The columns of one face *)

Lemma compute_mesh_example :
  compute_mesh_quality (vertices mesh_P) mesh_F
  = Ok (quality_record
          [(embed (0, 0, 0), embed (1, 0, 0), embed (0, 1, 0));
           (embed (1, 0, 0), embed (1, 0, 0), embed (1, 0, 0))]).
Proof. apply compute_mesh_quality_view. reflexivity. Qed.





(** ** Angles and edges of a face *)

Lemma flt_fle (x y : float64) : flt x y -> fle x y.
Proof. destruct x, y; simpl; try tauto. lra. Qed.

Lemma fle_refl (x : float64) : isnan x = false -> fle x x.
Proof. destruct x; simpl; intros H; try discriminate; try exact I. lra. Qed.

Lemma fle_trans (x y z : float64) : fle x y -> fle y z -> fle x z.
Proof. destruct x, y, z; simpl; try tauto. lra. Qed.

Lemma fminimum_nan (x y : float64) :
  isnan x || isnan y = true -> fminimum x y = NaN.
Proof. unfold fminimum. intros ->. reflexivity. Qed.

Lemma fmaximum_nan (x y : float64) :
  isnan x || isnan y = true -> fmaximum x y = NaN.
Proof. unfold fmaximum. intros ->. reflexivity. Qed.

Lemma fminimum_least (x y : float64) :
  isnan x || isnan y = false ->
  isnan (fminimum x y) = false
  /\ (fminimum x y = x \/ fminimum x y = y)
  /\ fle (fminimum x y) x /\ fle (fminimum x y) y.
Proof.
  intros H. unfold fminimum. rewrite H.
  apply orb_false_iff in H as [Hx Hy].
  destruct (fltb y x) eqn:E.
  - split; [exact Hy |]. split; [now right |].
    split; [apply flt_fle, fltb_spec, E | apply fle_refl, Hy].
  - split; [exact Hx |]. split; [now left |].
    split; [apply fle_refl, Hx | apply fle_or_gt_or_nan; assumption].
Qed.

Lemma fmaximum_greatest (x y : float64) :
  isnan x || isnan y = false ->
  isnan (fmaximum x y) = false
  /\ (fmaximum x y = x \/ fmaximum x y = y)
  /\ fle x (fmaximum x y) /\ fle y (fmaximum x y).
Proof.
  intros H. unfold fmaximum. rewrite H.
  apply orb_false_iff in H as [Hx Hy].
  destruct (fltb x y) eqn:E.
  - split; [exact Hy |]. split; [now right |].
    split; [apply flt_fle, fltb_spec, E | apply fle_refl, Hy].
  - split; [exact Hx |]. split; [now left |].
    split; [apply fle_refl, Hx | apply fle_or_gt_or_nan; assumption].
Qed.

(** [np.min] and [np.max] of three stacked rows. *)
Lemma fmin3_fmax3_spec (a b c : float64) :
  min_max_of3 (fmin3 a b c) (fmax3 a b c) a b c.
Proof.
  unfold min_max_of3, fmin3, fmax3.
  destruct (isnan a || isnan b) eqn:Eab.
  - cbn [orb]. rewrite (fminimum_nan a b Eab), (fmaximum_nan a b Eab).
    split; reflexivity.
  - cbn [orb].
    destruct (fminimum_least a b Eab) as (Hn & Hor & Hla & Hlb).
    destruct (fmaximum_greatest a b Eab) as (Hn' & Hor' & Hga & Hgb).
    destruct (isnan c) eqn:Ec.
    + split; [apply fminimum_nan | apply fmaximum_nan];
        rewrite Ec; apply orb_true_r.
    + assert (E1 : isnan (fminimum a b) || isnan c = false)
        by (rewrite Hn, Ec; reflexivity).
      assert (E2 : isnan (fmaximum a b) || isnan c = false)
        by (rewrite Hn', Ec; reflexivity).
      destruct (fminimum_least _ c E1) as (_ & Hor1 & Hl1 & Hl2).
      destruct (fmaximum_greatest _ c E2) as (_ & Hor2 & Hg1 & Hg2).
      split; (split; [| split; [| split]]).
      * destruct Hor1 as [H | H]; [destruct Hor as [H' | H'] |];
          [left | right; left | right; right]; congruence.
      * exact (fle_trans _ _ _ Hl1 Hla).
      * exact (fle_trans _ _ _ Hl1 Hlb).
      * exact Hl2.
      * destruct Hor2 as [H | H]; [destruct Hor' as [H' | H'] |];
          [left | right; left | right; right]; congruence.
      * exact (fle_trans _ _ _ Hga Hg1).
      * exact (fle_trans _ _ _ Hgb Hg1).
      * exact Hg2.
Qed.

Lemma clip_range (x : float64) (lo hi : R) :
  lo <= hi -> isnan x = false ->
  exists w, clip x (Fin lo) (Fin hi) = Fin w /\ lo <= w <= hi.
Proof.
  intros H Hx. destruct x as [| | |r]; try discriminate.
  - exists hi. unfold clip, fmaximum, fminimum; simpl.
    split; [reflexivity | lra].
  - exists lo. unfold clip, fmaximum, fminimum; simpl.
    rewrite Rltb_false by lra. split; [reflexivity | lra].
  - exists (clipR r lo hi). split; [apply clip_Fin; lra |].
    apply clipR_bounds; lra.
Qed.

(** The clipped cosine keeps the inverse cosine defined: an angle is NaN
    only when its guarded cosine is NaN. *)
Lemma angle_of_range (a b c : float64) :
  nan_or_within 0 180 (angle_of a b c).
Proof.
  unfold angle_of. remember (cos_law a b c) as x eqn:Ex. clear Ex.
  destruct (isnan x) eqn:E.
  - left. destruct x; (discriminate || reflexivity).
  - right. destruct (clip_range x (-1) 1 ltac:(lra) E) as (w & -> & Hw).
    rewrite arccos_Fin by exact Hw.
    unfold degrees. cbn [fmul]. eexists. split; [reflexivity |].
    pose proof (acos_bound w) as Hb. pose proof PI_RGT_0 as Hpi.
    assert (Hk : 0 < 180 / PI) by (apply Rdiv_lt_0_compat; lra).
    split.
    + apply Rmult_le_pos; lra.
    + replace 180 with (PI * (180 / PI)) at 2 by (field; lra).
      apply Rmult_le_compat_r; lra.
Qed.

Lemma angle_of_nan (a b c : float64) :
  isnan (angle_of a b c) = isnan (cos_law a b c).
Proof.
  destruct (isnan (cos_law a b c)) eqn:E.
  - unfold angle_of. destruct (cos_law a b c); (discriminate || reflexivity).
  - destruct (angle_of_range a b c) as [H | (r & -> & _)]; [| reflexivity].
    exfalso. revert H. unfold angle_of.
    destruct (clip_range _ (-1) 1 ltac:(lra) E) as (w & -> & Hw).
    rewrite arccos_Fin by exact Hw. discriminate.
Qed.

(** X15.  For every mesh and every face, whatever the coordinates, each of
    the three angles is NaN or a finite value in [[0, 180]] degrees, and it
    is NaN exactly when its guarded cosine, computed from the stored edge
    lengths, is NaN: the cosine is clipped to [[-1, 1]] before the inverse
    cosine.  [min_angle] and [max_angle] are NaN when one of the three
    angles is NaN, and otherwise the least and the greatest of the three. *)
Theorem face_angles_in_range_or_nan
        (V : list vec3) (F : list face) (q : QDict) (n : nat) :
  compute_mesh_quality V F = Ok q ->
  (n < List.length F)%nat ->
  exists a b c A B C mn mx : float64,
    nth_error (edge_a q) n = Some a
    /\ nth_error (edge_b q) n = Some b
    /\ nth_error (edge_c q) n = Some c
    /\ nth_error (angle_A q) n = Some A
    /\ nth_error (angle_B q) n = Some B
    /\ nth_error (angle_C q) n = Some C
    /\ nth_error (min_angle q) n = Some mn
    /\ nth_error (max_angle q) n = Some mx
    /\ nan_or_within 0 180 A
    /\ nan_or_within 0 180 B
    /\ nan_or_within 0 180 C
    /\ isnan A = isnan (cos_law a b c)
    /\ isnan B = isnan (cos_law b c a)
    /\ isnan C = isnan (cos_law c a b)
    /\ min_max_of3 mn mx A B C.
Proof.
  intros Hq Hn.
  destruct (compute_mesh_quality_Ok _ _ _ Hq) as (T & G & ->).
  apply gather_length in G.
  destruct (nth_error T n) as [t|] eqn:Ht;
    [| apply nth_error_None in Ht; lia].
  cbn [quality_record edge_a edge_b edge_c angle_A angle_B angle_C
       min_angle max_angle].
  rewrite !nth_error_map, Ht. cbn [option_map].
  do 8 eexists.
  split; [reflexivity |]. split; [reflexivity |]. split; [reflexivity |].
  split; [reflexivity |]. split; [reflexivity |]. split; [reflexivity |].
  split; [reflexivity |]. split; [reflexivity |].
  split; [apply angle_of_range |]. split; [apply angle_of_range |].
  split; [apply angle_of_range |].
  split; [apply angle_of_nan |]. split; [apply angle_of_nan |].
  split; [apply angle_of_nan |].
  apply fmin3_fmax3_spec.
Qed.

Lemma face_angles_in_range_or_nan_witness :
  exists q A,
    compute_mesh_quality (vertices mesh_P) mesh_F = Ok q
    /\ nth_error (angle_A q) 0 = Some A
    /\ nan_or_within 0 180 A.
Proof.
  assert (Hn : (0 < List.length mesh_F)%nat) by (cbn; lia).
  destruct (face_angles_in_range_or_nan
              (vertices mesh_P) mesh_F _ 0 compute_mesh_example Hn)
    as (a & b & c & A & B & C & mn & mx
        & _ & _ & _ & HA & _ & _ & _ & _ & RA & _).
  eexists; exists A. split; [exact compute_mesh_example |].
  split; [exact HA | exact RA].
Defined.

Lemma fsqrt_nonneg (x : float64) : nan_or_nonneg (fsqrt x).
Proof.
  destruct x as [| | |r]; simpl; try (now left); try (right; exact I).
  destruct (Rltb r 0); [now left |]. right. simpl. apply sqrt_pos.
Qed.

Lemma norm_row_nonneg (e : vec3) : nan_or_nonneg (norm_row e).
Proof. destruct e as [[x y] z]. unfold norm_row. apply fsqrt_nonneg. Qed.

(** X16.  For every mesh and every face [(i, j, k)], whatever the
    coordinates, the stored edge lengths are the norms of the differences
    of its vertices in the fixed convention: [edge_a] of [V[k] - V[j]]
    (opposite the first vertex), [edge_b] of [V[i] - V[k]], [edge_c] of
    [V[j] - V[i]].  Each is NaN, [+inf] or a finite value that is not
    negative; [min_edge] and [max_edge] are NaN when one of the three is
    NaN, and otherwise the least and the greatest of the three. *)
Theorem face_edges
        (V : list vec3) (F : list face) (q : QDict) (n : nat) (i j k : Z) :
  compute_mesh_quality V F = Ok q ->
  nth_error F n = Some (i, j, k) ->
  exists (v0 v1 v2 : vec3) (mn mx : float64),
    index_row V i = Ok v0
    /\ index_row V j = Ok v1
    /\ index_row V k = Ok v2
    /\ nth_error (edge_a q) n = Some (norm_row (vec_sub v2 v1))
    /\ nth_error (edge_b q) n = Some (norm_row (vec_sub v0 v2))
    /\ nth_error (edge_c q) n = Some (norm_row (vec_sub v1 v0))
    /\ nan_or_nonneg (norm_row (vec_sub v2 v1))
    /\ nan_or_nonneg (norm_row (vec_sub v0 v2))
    /\ nan_or_nonneg (norm_row (vec_sub v1 v0))
    /\ nth_error (min_edge q) n = Some mn
    /\ nth_error (max_edge q) n = Some mx
    /\ min_max_of3 mn mx (norm_row (vec_sub v2 v1))
                   (norm_row (vec_sub v0 v2)) (norm_row (vec_sub v1 v0)).
Proof.
  intros Hq Hn.
  destruct (compute_mesh_quality_Ok _ _ _ Hq) as (T & G & ->).
  destruct (gather_nth _ _ _ _ _ _ _ G Hn)
    as (v0 & v1 & v2 & H0 & H1 & H2 & Ht).
  exists v0, v1, v2.
  cbn [quality_record edge_a edge_b edge_c min_edge max_edge].
  rewrite !nth_error_map, Ht. cbn [option_map].
  do 2 eexists.
  split; [exact H0 |]. split; [exact H1 |]. split; [exact H2 |].
  split; [reflexivity |]. split; [reflexivity |]. split; [reflexivity |].
  split; [apply norm_row_nonneg |]. split; [apply norm_row_nonneg |].
  split; [apply norm_row_nonneg |].
  split; [reflexivity |]. split; [reflexivity |].
  apply (fmin3_fmax3_spec (tri_a (v0, v1, v2)) (tri_b (v0, v1, v2))
                          (tri_c (v0, v1, v2))).
Qed.

Lemma face_edges_witness :
  exists q a,
    compute_mesh_quality (vertices mesh_P) mesh_F = Ok q
    /\ nth_error (edge_a q) 0 = Some a
    /\ nan_or_nonneg a.
Proof.
  destruct (face_edges (vertices mesh_P) mesh_F _ 0 0 1 2
                       compute_mesh_example eq_refl)
    as (v0 & v1 & v2 & mn & mx & _ & _ & _ & Ha & _ & _ & Hpos & _).
  eexists; eexists. split; [exact compute_mesh_example |].
  split; [exact Ha | exact Hpos].
Defined.
